(** * fzsl: the scanner module and the fuzzy-selection core

    A shallow embedding of [fzsl/scanner.py] (the discovery provider:
    [SimpleScanner] and [scanner_from_configparser]) together with a model
    of the matcher and the search session that the specification
    describes.  The scanner is Python 2 code: [str] values are byte
    strings, modelled by [string]; the file system (regular files and
    directories) and the subprocesses the scanner talks to are an
    explicit world that every operation threads through. *)

From Stdlib Require Import ZArith Ascii Sorted.
From stdpp Require Import base strings list gmap.

Local Open Scope Z_scope.

(** ** Python byte-string primitives *)

Module PyStr.

(** [str.isspace] on one byte in the C locale: tab, line feed, vertical
    tab, form feed, carriage return and space. *)
Definition isspace (c : ascii) : bool :=
  match c with
  | "009" | "010" | "011" | "012" | "013" | " " => true
  | _ => false
  end%char.

(** The token collected so far is emitted when a separator or the end
    of the input is reached; an empty run emits nothing. *)
Definition flush (tok : string) : list string :=
  match tok with
  | "" => []
  | _ => [tok]
  end.

(** [s.split()] without arguments: runs of whitespace separate the
    tokens, leading and trailing whitespace produce no token.  [tok] is
    the slice under construction. *)
Fixpoint split_from (tok s : string) : list string :=
  match s with
  | "" => flush tok
  | String c rest =>
      if isspace c then flush tok ++ split_from "" rest
      else split_from (tok +:+ String c "") rest
  end.

Definition split (s : string) : list string := split_from "" s.

Fixpoint lstrip (s : string) : string :=
  match s with
  | "" => ""
  | String c rest => if isspace c then lstrip rest else s
  end.

Fixpoint rstrip (s : string) : string :=
  match s with
  | "" => ""
  | String c rest =>
      match rstrip rest with
      | "" => if isspace c then "" else String c ""
      | kept => String c kept
      end
  end.

(** [s.strip()]: both ends are trimmed. *)
Definition strip (s : string) : string := rstrip (lstrip s).

(** [sep.join(l)]. *)
Fixpoint join (sep : string) (l : list string) : string :=
  match l with
  | [] => ""
  | [x] => x
  | x :: rest => x +:+ sep +:+ join sep rest
  end.

(** [s.startswith(p)]. *)
Fixpoint startswith (s p : string) : bool :=
  match p, s with
  | "", _ => true
  | String _ _, "" => false
  | String a p', String b s' => if Ascii.eqb a b then startswith s' p' else false
  end.

(** [s.replace(a, b)] for one-byte [a] and [b]. *)
Fixpoint replace (a b : ascii) (s : string) : string :=
  match s with
  | "" => ""
  | String c rest => String (if Ascii.eqb c a then b else c) (replace a b rest)
  end.

Definition LF : ascii := "010"%char.

(** *** Predicates on strings used by the statements *)

Fixpoint all_chars (P : ascii -> bool) (s : string) : bool :=
  match s with
  | "" => true
  | String c rest => P c && all_chars P rest
  end.

Definition allspace (s : string) : bool := all_chars isspace s.
Definition nospace (s : string) : bool := all_chars (fun c => negb (isspace c)) s.

(** A word: at least one byte, none of them whitespace. *)
Definition word (s : string) : bool :=
  match s with
  | "" => false
  | _ => nospace s
  end.

Definition first_char (s : string) : option ascii :=
  match s with
  | "" => None
  | String c _ => Some c
  end.

Fixpoint last_char (s : string) : option ascii :=
  match s with
  | "" => None
  | String c "" => Some c
  | String _ rest => last_char rest
  end.

Definition not_space (o : option ascii) : bool :=
  match o with
  | Some c => negb (isspace c)
  | None => true
  end.

(** No leading and no trailing whitespace. *)
Definition trimmed (s : string) : bool :=
  not_space (first_char s) && not_space (last_char s).

(** The text is empty or begins with a separator: a word put in front
    of it ends exactly there. *)
Definition breaks (s : string) : bool :=
  match s with
  | "" => true
  | String c _ => isspace c
  end.

(** [Tokens s ts]: [ts] lists, in order of appearance, the maximal runs
    of non-whitespace bytes of [s]. *)
Inductive Tokens : string -> list string -> Prop :=
| Tokens_end (ws : string) :
    allspace ws = true -> Tokens ws []
| Tokens_word (ws t rest : string) (ts : list string) :
    allspace ws = true -> word t = true -> breaks rest = true ->
    Tokens rest ts -> Tokens (ws +:+ t +:+ rest) (t :: ts).

End PyStr.

Import PyStr.

(** ** Exceptions and the world the scanner runs in *)

(** The exceptions that can leave the scanner module.  The first three
    are the module's own classes; their message is formatted from the
    recorded fields.  [NoSectionError] and [NoOptionError] belong to the
    standard configuration parser, [IOError] and [TypeError] to [open],
    [OSError] to [os.makedirs]. *)
Inductive exn :=
| SubprocessError (cmd cwd : string) (error : option string)
| NoTypeError (section : string)
| UnknownTypeError (scanner_type section : string)
| NoSectionError (section : string)
| NoOptionError (option section : string)
| IOError (path : string)
| OSError (path : string)
| TypeError.

Inductive result (A : Type) :=
| Return (a : A)
| Raise (e : exn).
Arguments Return {A} a.
Arguments Raise {A} e.

#[global] Instance result_ret : MRet result := fun A a => Return a.
#[global] Instance result_bind : MBind result := fun A B f m =>
  match m with
  | Return a => f a
  | Raise e => Raise e
  end.

(** What [subprocess.Popen(...)] followed by [communicate()] yields:
    either the child could not be started (an exception inside the [try]
    block) or it ran to the end with a return code and its captured
    standard output. *)
Inductive completed :=
| LaunchFailed
| Exited (returncode : Z) (stdout : string).

(** The operating system as the scanner sees it.  A shell command is an
    arbitrary transformation of the regular files that ends in a
    [completed] value; the path functions are those of [os.path];
    [denied p] says that the system refuses to create or to open for
    writing the path [p] (permissions, a read-only file system). *)
Record OS := {
  getcwd : string;
  expandvars : string -> string;
  expanduser : string -> string;
  normpath : string -> string;
  realpath : string -> string;
  dirname : string -> string;
  denied : string -> bool;
  shell : string -> string -> gmap string string -> completed * gmap string string
}.

(** The mutable part: the regular files by path with their contents,
    the directories, and the [Popen] calls made so far, oldest first,
    each with its command and working directory. *)
Record world := {
  files : gmap string string;
  dirs : gset string;
  spawned : list (string * string)
}.

Definition M (A : Type) : Type := world -> result A * world.

#[global] Instance M_ret : MRet M := fun A a w => (Return a, w).
#[global] Instance M_bind : MBind M := fun A B f m w =>
  match m w with
  | (Return a, w') => f a w'
  | (Raise e, w') => (Raise e, w')
  end.

Definition raise {A : Type} (e : exn) : M A := fun w => (Raise e, w).

(** A computation that only returns or raises, run in any world. *)
Definition lift {A : Type} (r : result A) : M A := fun w => (r, w).

(** Something stands at [p]: a regular file or a directory. *)
Definition exists_at (w : world) (p : string) : bool :=
  bool_decide (is_Some (files w !! p)) || bool_decide (p ∈ dirs w).

(** [os.path.exists(p)]. *)
Definition path_exists (p : string) : M bool :=
  fun w => (Return (exists_at w p), w).

(** [os.path.isdir(p)]. *)
Definition isdir (p : string) : M bool :=
  fun w => (Return (bool_decide (p ∈ dirs w)), w).

(** [open(p, 'r').read()]; [p] is [None] when the attribute is unset.
    Only a regular file can be read: a directory and a missing path
    raise [IOError]. *)
Definition read_file (p : option string) : M string :=
  fun w =>
    match p with
    | None => (Raise TypeError, w)
    | Some p =>
        match files w !! p with
        | Some data => (Return data, w)
        | None => (Raise (IOError p), w)
        end
    end.

(** [open(p, 'w')] succeeds: the system does not deny it, no directory
    stands at [p], and the directory that is to hold [p] exists. *)
Definition can_write (os : OS) (w : world) (p : string) : bool :=
  negb (denied os p)
  && negb (bool_decide (p ∈ dirs w))
  && bool_decide (dirname os p ∈ dirs w).

(** [open(p, 'w').write(data)]: the file is created or truncated, or
    [open] raises [IOError] and nothing is written. *)
Definition write_file (os : OS) (p data : string) : M unit :=
  fun w =>
    if can_write os w p
    then (Return tt, {| files := <[p := data]> (files w);
                        dirs := dirs w;
                        spawned := spawned w |})
    else (Raise (IOError p), w).

(** The directory [d] and the directories above it, found by taking
    [dirname] at most [n] times. *)
Fixpoint upward (os : OS) (n : nat) (d : string) : list string :=
  match n with
  | O => []
  | S n => d :: upward os n (dirname os d)
  end.

(** [os.makedirs(d)]: [OSError] when something already stands at [d] or
    the system denies the creation; otherwise [d] and the directories
    above it exist afterwards. *)
Definition makedirs (os : OS) (d : string) : M unit :=
  fun w =>
    if denied os d || exists_at w d then (Raise (OSError d), w)
    else (Return tt, {| files := files w;
                        dirs := list_to_set (upward os (String.length d) d) ∪ dirs w;
                        spawned := spawned w |}).

(** [subprocess.Popen(cmd, cwd=cwd, shell=True, ...)] and
    [communicate()], with the start recorded. *)
Definition communicate (os : OS) (cmd cwd : string) : M completed :=
  fun w =>
    let '(c, fs) := shell os cmd cwd (files w) in
    (Return c, {| files := fs; dirs := dirs w; spawned := spawned w ++ [(cmd, cwd)] |}).

(** ** [SimpleScanner] *)

(** A priority is the integer default or whatever the caller passed; the
    configuration parser hands over a string. *)
Inductive priority :=
| PyInt (n : Z)
| PyString (s : string).

Record SimpleScanner := {
  _name : string;
  _priority : priority;
  _cmd : string;
  _detect_cmd : option string;
  _root_path : option string;
  _cache : option string
}.

(** The chain [expandvars], [expanduser], [normpath], [realpath] that
    [__init__] applies to [root_path] and to [cache]. *)
Definition canonical (os : OS) (p : string) : string :=
  realpath os (normpath os (expanduser os (expandvars os p))).

(** The object [SimpleScanner.__init__] sets up: the attributes as its
    assignments leave them (lines 99 to 115). *)
Definition SimpleScanner_init (os : OS) (name cmd : string) (prio : priority)
    (detect_cmd root_path cache : option string) : SimpleScanner :=
  {| _name := name;
     _priority := prio;
     _cmd := cmd;
     _detect_cmd := detect_cmd;
     _root_path := canonical os <$> root_path;
     _cache := canonical os <$> cache |}.

(** [SimpleScanner.__init__]: the attributes are assigned and, for a
    scanner with a cache, the directory of the cache file is created
    unless it is there already; [os.makedirs] may raise. *)
Definition __init__ (os : OS) (name cmd : string) (prio : priority)
    (detect_cmd root_path cache : option string) : M SimpleScanner :=
  let self := SimpleScanner_init os name cmd prio detect_cmd root_path cache in
  match cache return M SimpleScanner with
  | Some cache =>
      let cachedir := dirname os (canonical os cache) in
      isdir cachedir ≫= λ there : bool,
        if there then mret self
        else _ ← makedirs os cachedir; mret self
  | None => mret self
  end.

(** The last statements of [is_suitable], reached when neither test
    returned. *)
Definition fallthrough (self : SimpleScanner) : bool :=
  match _root_path self, _detect_cmd self with
  | None, None => true
  | _, _ => false
  end.

(** The first block of [is_suitable]: whether it returned [True], and
    the value of the local [path] after it.  With a [root_path] the
    block rebinds [path] to its canonical form, and the rebinding is
    still in force when the detect command is started. *)
Definition root_path_block (os : OS) (self : SimpleScanner) (path : string)
    : bool * string :=
  match _root_path self with
  | Some root =>
      let path := realpath os (normpath os path) in
      (startswith path root, path)
  | None => (false, path)
  end.

(** [SimpleScanner.is_suitable]. *)
Definition is_suitable (os : OS) (self : SimpleScanner) (path : string) : M bool :=
  let '(under_root, path) := root_path_block os self path in
  if under_root then mret true
  else
    match _detect_cmd self with
    | Some detect_cmd =>
        c ← communicate os detect_cmd path;
        match c with
        | LaunchFailed => raise (SubprocessError detect_cmd path (Some ""))
        | Exited returncode _ =>
            if bool_decide (returncode = 0) then mret true
            else mret (fallthrough self)
        end
    | None => mret (fallthrough self)
    end.

(** [SimpleScanner.scan]. *)
Definition scan (os : OS) (self : SimpleScanner) (path : option string)
    (rescan : bool) : M (list string) :=
  have_cache ← match _cache self with
               | Some c => path_exists c
               | None => mret false
               end;
  if have_cache && negb rescan then
    data ← read_file (_cache self);
    mret (strip <$> split data)
  else
    let path := default (getcwd os) path in
    let cwd := default path (_root_path self) in
    c ← communicate os (_cmd self) cwd;
    match c with
    | LaunchFailed => raise (SubprocessError (_cmd self) cwd (Some ""))
    | Exited returncode stdout =>
        if bool_decide (returncode ≠ 0)
        then raise (SubprocessError (_cmd self) cwd None)
        else
          let ret := strip <$> split stdout in
          _ ← match _cache self with
              | Some c => write_file os c (join (String LF "") ret)
              | None => mret tt
              end;
          mret ret
    end.

(** ** Construction from a configuration section *)

(** The two methods of the standard configuration parser that the module
    calls.  [get] raises the parser's own exceptions. *)
Class ConfigParser (P : Type) := {
  has_option : P -> string -> string -> bool;
  get : P -> string -> string -> result string;
  get_raises : forall (p : P) (section option : string) (e : exn),
    get p section option = Raise e ->
    e = NoSectionError section \/ e = NoOptionError option section
}.

(** [RawConfigParser] of Python's standard library, the parser the
    module's test passes in: the options of each section and the
    defaults shared by all of them, looked up as the library does. *)
Record RawConfigParser := {
  _defaults : gmap string string;
  _sections : gmap string (gmap string string)
}.

Definition DEFAULTSECT : string := "DEFAULT".

Definition raw_has_option (p : RawConfigParser) (section option : string) : bool :=
  if bool_decide (section = "" ∨ section = DEFAULTSECT)
  then bool_decide (is_Some (_defaults p !! option))
  else
    match _sections p !! section with
    | None => false
    | Some opts =>
        bool_decide (is_Some (opts !! option))
        || bool_decide (is_Some (_defaults p !! option))
    end.

Definition raw_get (p : RawConfigParser) (section option : string) : result string :=
  match _sections p !! section with
  | None =>
      if bool_decide (section ≠ DEFAULTSECT) then Raise (NoSectionError section)
      else
        match _defaults p !! option with
        | Some v => Return v
        | None => Raise (NoOptionError option section)
        end
  | Some opts =>
      match opts !! option with
      | Some v => Return v
      | None =>
          match _defaults p !! option with
          | Some v => Return v
          | None => Raise (NoOptionError option section)
          end
      end
  end.

Lemma raw_get_raises (p : RawConfigParser) (section option : string) (e : exn) :
  raw_get p section option = Raise e ->
  e = NoSectionError section \/ e = NoOptionError option section.
Proof.
  unfold raw_get. intros Hget.
  repeat (case_match; simplify_eq); auto.
Qed.

#[global] Instance RawConfigParser_parser : ConfigParser RawConfigParser :=
  {| has_option := raw_has_option; get := raw_get; get_raises := raw_get_raises |}.

(** One optional keyword of [from_configparser]: read only when the
    section has it. *)
Definition keyword {P : Type} `{ConfigParser P} (parser : P) (section name : string)
    : result (option string) :=
  if has_option parser section name
  then v ← get parser section name; mret (Some v)
  else mret None.

(** [cmd.replace('\n', ' ')]. *)
Definition one_line (s : string) : string := replace LF " "%char s.

(** [SimpleScanner.from_configparser]: the options are read, then the
    constructor is called. *)
Definition from_configparser {P : Type} `{ConfigParser P} (os : OS)
    (section : string) (parser : P) : M SimpleScanner :=
  detect_cmd ← lift (keyword parser section "detect_cmd");
  root_path ← lift (keyword parser section "root_path");
  prio ← lift (keyword parser section "priority");
  cache ← lift (keyword parser section "cache");
  cmd ← lift (get parser section "cmd");
  __init__ os section (one_line cmd)
    (from_option PyString (PyInt 0) prio)
    (one_line <$> detect_cmd) root_path cache.

(** [scanner_from_configparser]. *)
Definition scanner_from_configparser {P : Type} `{ConfigParser P} (os : OS)
    (section : string) (parser : P) : M SimpleScanner :=
  if negb (has_option parser section "type") then raise (NoTypeError section)
  else
    scanner_type ← lift (get parser section "type");
    if bool_decide (scanner_type = "simple")
    then from_configparser os section parser
    else raise (UnknownTypeError scanner_type section).

(** ** Ordering of scanners *)

#[global] Instance priority_eq_dec : EqDecision priority.
Proof. solve_decision. Defined.

(** Python 2 [<] on two priorities: integers by value, byte strings
    lexicographically by byte, and an integer below every string (a
    number sorts before an object of any other type). *)
Definition priority_lt (a b : priority) : bool :=
  match a, b with
  | PyInt m, PyInt n => m <? n
  | PyInt _, PyString _ => true
  | PyString _, PyInt _ => false
  | PyString s, PyString t => String.ltb s t
  end.

(** [Scanner.__eq__]: same name and same priority. *)
Definition __eq__ (self other : SimpleScanner) : bool :=
  bool_decide (_name self = _name other)
  && bool_decide (_priority self = _priority other).

(** [Scanner.__lt__]: the priorities alone decide. *)
Definition __lt__ (self other : SimpleScanner) : bool :=
  priority_lt (_priority self) (_priority other).

(** ** The matcher, the ranker and the search session

    The module [fzsl.core] is imported by the package but is not part of
    the sources at hand; the definitions below follow the specification's
    description of the core (sections 3 and 4). *)

(** Modelled from the spec: the Candidate of [fzsl.core], an immutable
    string plus its position in the original discovery order. *)
Record Candidate := {
  text : string;
  order : nat
}.

(** A lone candidate, for statements about a single string. *)
Definition named (s : string) : Candidate := {| text := s; order := 0 |}.

(** Modelled from the spec: the MatchResult of [fzsl.core], a reference
    to a Candidate, a numeric score, and the matched character indices
    into the candidate. *)
Record MatchResult := {
  candidate : Candidate;
  score_value : Z;
  positions : list nat
}.

(** Modelled from the spec: the result type of the matcher's [score],
    a match result or the explicit non-match value; there is no error
    outcome. *)
Inductive Outcome :=
| Match (r : MatchResult)
| NoMatch.

(** Modelled from the spec: the numeric weights of the scoring bonuses
    and penalties of [fzsl.core], a tuning surface exposed as constants. *)
Record Weights := {
  contiguous_bonus : Z;
  boundary_bonus : Z;
  leading_gap_penalty : Z;
  interior_gap_penalty : Z
}.

Module Matcher.

(** Modelled from the spec: the letter classes the case rule and the
    camel-case boundary of [fzsl.core] rest on. *)
Definition is_upper (c : ascii) : bool :=
  let n := N_of_ascii c in ((65 <=? n) && (n <=? 90))%N.

(** Modelled from the spec: lowercase letters, for the camel-case
    boundary of [fzsl.core]. *)
Definition is_lower (c : ascii) : bool :=
  let n := N_of_ascii c in ((97 <=? n) && (n <=? 122))%N.

(** Modelled from the spec: case folding for the case-insensitive
    comparison of [fzsl.core]. *)
Definition to_lower (c : ascii) : ascii :=
  if is_upper c then ascii_of_N (N_of_ascii c + 32) else c.

(** Modelled from the spec: the separators of the boundary bonus of
    [fzsl.core]: slash, underscore, dash, dot and whitespace. *)
Definition is_separator (c : ascii) : bool :=
  match c with
  | "/" | "_" | "-" | "." => true
  | _ => isspace c
  end%char.

(** Modelled from the spec: whether the query of [fzsl.core]'s matcher
    contains any uppercase letter. *)
Fixpoint has_upper (query : string) : bool :=
  match query with
  | "" => false
  | String c rest => is_upper c || has_upper rest
  end.

(** Modelled from the spec: the character comparison of [fzsl.core]'s
    matcher under the case rule, exact when [sensitive], on folded
    characters otherwise. *)
Definition same_char (sensitive : bool) (q c : ascii) : bool :=
  if sensitive then Ascii.eqb q c
  else Ascii.eqb (to_lower q) (to_lower c).

(** Modelled from the spec: the gap part of one matched-character
    transition in [fzsl.core]: the leading-gap penalty before the first
    match, the contiguous bonus right after the previous match, the
    interior-gap penalty otherwise. *)
Definition gap_score (w : Weights) (i : nat) (last : option nat) : Z :=
  match last with
  | None => - leading_gap_penalty w * Z.of_nat i
  | Some p =>
      if (i =? S p)%nat then contiguous_bonus w
      else - interior_gap_penalty w * Z.of_nat (i - S p)
  end.

(** Modelled from the spec: the boundary test of [fzsl.core]: the start
    of the candidate, after a separator, or at a lowercase to uppercase
    transition. *)
Definition at_boundary (before : option ascii) (c : ascii) : bool :=
  match before with
  | None => true
  | Some b => is_separator b || (is_lower b && is_upper c)
  end.

(** Modelled from the spec: the score of one matched-character
    transition of [fzsl.core]. *)
Definition transition (w : Weights) (i : nat) (last : option nat)
    (before : option ascii) (c : ascii) : Z :=
  gap_score w i last + (if at_boundary before c then boundary_bonus w else 0).

(** Modelled from the spec: the choice between two alignments in
    [fzsl.core], the higher cumulative score wins and the earlier
    position is kept on a tie. *)
Definition better (taken : Z * list nat) (skipped : option (Z * list nat))
    : Z * list nat :=
  match skipped with
  | Some other => if taken.1 <? other.1 then other else taken
  | None => taken
  end.

(** Modelled from the spec: the optimal-subsequence-alignment of
    [fzsl.core]'s matcher over (query position, candidate position)
    pairs.  [i] is the index of the head of [cand], [last] the previous
    matched index and [before] the candidate character in front of [i].
    The result is the best cumulative score of the remaining query and
    the positions that reach it, or nothing when the remaining query
    does not fit. *)
Fixpoint align (w : Weights) (sensitive : bool) (query cand : string) (i : nat)
    (last : option nat) (before : option ascii) {struct cand}
    : option (Z * list nat) :=
  match query with
  | "" => Some (0, [])
  | String q query' =>
      match cand with
      | "" => None
      | String c cand' =>
          let skipped := align w sensitive query cand' (S i) last (Some c) in
          if same_char sensitive q c then
            match align w sensitive query' cand' (S i) (Some i) (Some c) with
            | Some (s, ps) =>
                Some (better (transition w i last before c + s, i :: ps) skipped)
            | None => skipped
            end
          else skipped
      end
  end.

(** Modelled from the spec: the contract [score(query, candidate)] of
    the matcher of [fzsl.core], with the smart-case rule. *)
Definition score (w : Weights) (query : string) (c : Candidate) : Outcome :=
  match align w (has_upper query) query (text c) 0 None None with
  | Some (s, ps) => Match {| candidate := c; score_value := s; positions := ps |}
  | None => NoMatch
  end.

Definition matched (o : Outcome) : bool :=
  match o with
  | Match _ => true
  | NoMatch => false
  end.

(** Modelled from the spec: the glossary's subsequence match, all
    characters of the query appear in the candidate in the same relative
    order, not necessarily contiguous; [same] compares one query
    character with one candidate character. *)
Inductive Subsequence (same : ascii -> ascii -> bool) : string -> string -> Prop :=
| Subsequence_empty (cand : string) :
    Subsequence same "" cand
| Subsequence_take (q c : ascii) (query cand : string) :
    same q c = true -> Subsequence same query cand ->
    Subsequence same (String q query) (String c cand)
| Subsequence_skip (c : ascii) (query cand : string) :
    Subsequence same query cand ->
    Subsequence same query (String c cand).

(** Modelled from the spec: the invariant of a MatchResult of
    [fzsl.core]: the matched indices, counted from [i] at the head of
    the candidate, are strictly increasing and each indexed character
    compares equal to the corresponding query character, in order. *)
Inductive Aligned (same : ascii -> ascii -> bool)
    : string -> string -> nat -> list nat -> Prop :=
| Aligned_done (cand : string) (i : nat) :
    Aligned same "" cand i []
| Aligned_take (q c : ascii) (query cand : string) (i : nat) (ps : list nat) :
    same q c = true -> Aligned same query cand (S i) ps ->
    Aligned same (String q query) (String c cand) i (i :: ps)
| Aligned_skip (c : ascii) (query cand : string) (i : nat) (ps : list nat) :
    Aligned same query cand (S i) ps ->
    Aligned same query (String c cand) i ps.

(** The earliest-position test for a subsequence: the first candidate
    character that compares equal is taken. *)
Fixpoint fits (same : ascii -> ascii -> bool) (query cand : string) {struct cand}
    : bool :=
  match query with
  | "" => true
  | String q query' =>
      match cand with
      | "" => false
      | String c cand' =>
          if same q c then fits same query' cand' else fits same query cand'
      end
  end.

(** The case-insensitive comparison; the case-sensitive one is
    [Ascii.eqb]. *)
Definition caseless (q c : ascii) : bool := Ascii.eqb (to_lower q) (to_lower c).

End Matcher.

Module Ranker.

(** Modelled from the spec: the composite key of [fzsl.core]'s ranker:
    score descending, then candidate length ascending, then discovery
    order ascending. *)
Definition precedes (a b : MatchResult) : bool :=
  let la := String.length (text (candidate a)) in
  let lb := String.length (text (candidate b)) in
  (score_value b <? score_value a)
  || ((score_value a =? score_value b)
      && ((la <? lb)%nat
          || ((la =? lb)%nat && (order (candidate a) <=? order (candidate b))%nat))).

(** Modelled from the spec: one step of the stable sort of
    [fzsl.core]'s ranker. *)
Fixpoint place (r : MatchResult) (sorted : list MatchResult) : list MatchResult :=
  match sorted with
  | [] => [r]
  | x :: rest => if precedes r x then r :: sorted else x :: place r rest
  end.

(** Modelled from the spec: the ranker of [fzsl.core], an ordered
    sequence of the given match results. *)
Definition rank (results : list MatchResult) : list MatchResult :=
  foldr place [] results.

End Ranker.

Module Session.

(** Modelled from the spec: one entry of the snapshot stack of
    [fzsl.core]'s search session: query length, pool, ranked results. *)
Record Snapshot := {
  snap_length : nat;
  snap_pool : list Candidate;
  snap_ranked : list MatchResult
}.

(** Modelled from the spec: the SessionState of [fzsl.core]: the full
    candidate pool, the current query, the working pool with its ranked
    results, the snapshot stack and the selection cursor. *)
Record SessionState := {
  full_pool : list Candidate;
  query : string;
  pool : list Candidate;
  ranked : list MatchResult;
  snapshots : list Snapshot;
  cursor : nat
}.

(** Modelled from the spec: the candidates of a session of [fzsl.core],
    created once from the discovery provider's output, each with its
    position in discovery order. *)
Definition candidates (found : list string) : list Candidate :=
  imap (fun i s => {| text := s; order := i |}) found.

(** Modelled from the spec: the matcher of [fzsl.core] run over a pool,
    keeping the match results in pool order. *)
Definition matches (w : Weights) (q : string) (p : list Candidate)
    : list MatchResult :=
  omap (fun c => match Matcher.score w q c with
                 | Match r => Some r
                 | NoMatch => None
                 end) p.

(** Modelled from the spec: the pool [fzsl.core]'s session computes for
    a query from a given pool, the candidates that match. *)
Definition narrow (w : Weights) (q : string) (p : list Candidate)
    : list Candidate :=
  candidate <$> matches w q p.

(** Modelled from the spec: the list [fzsl.core]'s session displays:
    for the empty query the pool in its original order with no ranking
    performed, the ranked match results otherwise. *)
Definition display (w : Weights) (q : string) (p : list Candidate)
    : list MatchResult :=
  match q with
  | "" => matches w q p
  | _ => Ranker.rank (matches w q p)
  end.

(** Modelled from the spec: a scoring pass of [fzsl.core]'s session
    from the full candidate pool, with the snapshot stack rebuilt (full
    query replace, and the fallback of backspace). *)
Definition rescore (w : Weights) (q : string) (s : SessionState) : SessionState :=
  {| full_pool := full_pool s;
     query := q;
     pool := narrow w q (full_pool s);
     ranked := display w q (full_pool s);
     snapshots := [];
     cursor := 0 |}.

(** Modelled from the spec: session start of [fzsl.core] in the Empty
    state, the working pool being the full candidate pool. *)
Definition start (w : Weights) (found : list string) : SessionState :=
  let all := candidates found in
  {| full_pool := all;
     query := "";
     pool := all;
     ranked := display w "" all;
     snapshots := [];
     cursor := 0 |}.

(** Modelled from the spec: the discovery provider hands over a
    sequence or a failure indication; on failure the session of
    [fzsl.core] starts with an empty pool. *)
Definition load (w : Weights) (found : result (list string)) : SessionState :=
  match found with
  | Return l => start w l
  | Raise _ => start w []
  end.

(** Modelled from the spec: the append-character transition of
    [fzsl.core]'s session: a snapshot of the current pool is pushed and
    only the current working pool is scored again. *)
Definition append_char (w : Weights) (ch : ascii) (s : SessionState) : SessionState :=
  let q := query s +:+ String ch "" in
  {| full_pool := full_pool s;
     query := q;
     pool := narrow w q (pool s);
     ranked := display w q (pool s);
     snapshots := {| snap_length := String.length (query s);
                     snap_pool := pool s;
                     snap_ranked := ranked s |} :: snapshots s;
     cursor := 0 |}.

(** Modelled from the spec: the query of [fzsl.core]'s session after
    delete-last, the query without its last character. *)
Fixpoint chop (q : string) : string :=
  match q with
  | "" => ""
  | String _ "" => ""
  | String c rest => String c (chop rest)
  end.

(** Modelled from the spec: the delete-last-character transition of
    [fzsl.core]'s session: the snapshot pushed by the matching append is
    popped and restored; without a snapshot for the shorter query the
    session scores again from the full candidate pool. *)
Definition delete_last (w : Weights) (s : SessionState) : SessionState :=
  match query s with
  | "" => s
  | _ =>
      let q := chop (query s) in
      match snapshots s with
      | snap :: older =>
          if (snap_length snap =? String.length q)%nat then
            {| full_pool := full_pool s;
               query := q;
               pool := snap_pool snap;
               ranked := snap_ranked snap;
               snapshots := older;
               cursor := 0 |}
          else rescore w q s
      | [] => rescore w q s
      end
  end.

(** Modelled from the spec: the full-query-replace transition of
    [fzsl.core]'s session. *)
Definition replace_query (w : Weights) (q : string) (s : SessionState) : SessionState :=
  rescore w q s.

(** Modelled from the spec: the accept transition of [fzsl.core]'s
    session, the candidate at the selection cursor or none. *)
Definition accept (s : SessionState) : option Candidate :=
  candidate <$> ranked s !! cursor s.

(** Modelled from the spec: the abort transition of [fzsl.core]'s
    session, no selection. *)
Definition abort (s : SessionState) : option Candidate := None.

(** Modelled from the spec: a query typed one character at a time into
    a session of [fzsl.core]. *)
Fixpoint type_in (w : Weights) (chars : string) (s : SessionState) : SessionState :=
  match chars with
  | "" => s
  | String ch rest => type_in w rest (append_char w ch s)
  end.

End Session.

(** ** Vocabulary of the statements about [scan] *)

(** The condition of the first branch of [scan]: a cache path is set,
    something exists at it, and no rescan was asked for. *)
Definition served_from_cache (self : SimpleScanner) (rescan : bool) (w : world) : bool :=
  match _cache self with
  | Some c => exists_at w c && negb rescan
  | None => false
  end.

(** The working directory of the discovery command. *)
Definition scan_cwd (os : OS) (self : SimpleScanner) (path : option string) : string :=
  default (default (getcwd os) path) (_root_path self).

(** The run of the discovery command from the current file store. *)
Definition discovery (os : OS) (self : SimpleScanner) (path : option string)
    (w : world) : completed * gmap string string :=
  shell os (_cmd self) (scan_cwd os self path) (files w).

(** The command could not produce a file list: it did not start, or it
    ended with a nonzero return code. *)
Definition cannot_produce (c : completed) : Prop :=
  match c with
  | LaunchFailed => True
  | Exited returncode _ => returncode ≠ 0
  end.

(** The text of the cache file as [scan] writes it. *)
Definition cache_text (l : list string) : string := join (String LF "") l.

(** The world once a command has been started in [cwd] and has left the
    file store [fs]. *)
Definition after_run (w : world) (cmd cwd : string) (fs : gmap string string) : world :=
  {| files := fs; dirs := dirs w; spawned := spawned w ++ [(cmd, cwd)] |}.

(** The world once the list [l] has been stored in the cache file, when
    a cache path is set. *)
Definition with_cache (self : SimpleScanner) (l : list string) (w : world) : world :=
  match _cache self with
  | Some c => {| files := <[c := cache_text l]> (files w);
                 dirs := dirs w;
                 spawned := spawned w |}
  | None => w
  end.

(** The cache file of the scanner cannot be opened for writing. *)
Definition cache_refused (os : OS) (self : SimpleScanner) (w : world) : bool :=
  match _cache self with
  | Some c => negb (can_write os w c)
  | None => false
  end.

(** The text [scan] splits: the cache file in the first branch, the
    standard output of the discovery command in the second. *)
Definition scanned_text (os : OS) (self : SimpleScanner) (path : option string)
    (rescan : bool) (w : world) : option string :=
  if served_from_cache self rescan w then _cache self ≫= (files w !!.)
  else
    match (discovery os self path w).1 with
    | Exited _ out => Some out
    | LaunchFailed => None
    end.

(** The exceptions of the configuration parser. *)
Definition parser_error (e : exn) : Prop :=
  (exists s, e = NoSectionError s) \/ (exists o s, e = NoOptionError o s).

(** The options [from_configparser] hands to the constructor, when all
    of them can be read: detect command, root path, priority, cache
    path and command. *)
Definition options {P : Type} `{ConfigParser P} (parser : P) (section : string)
    : result (option string * option string * option string * option string * string) :=
  detect_cmd ← keyword parser section "detect_cmd";
  root_path ← keyword parser section "root_path";
  prio ← keyword parser section "priority";
  cache ← keyword parser section "cache";
  cmd ← get parser section "cmd";
  mret (detect_cmd, root_path, prio, cache, cmd).

(** The directory of the cache file has to be created and cannot be. *)
Definition cachedir_refused (os : OS) (cache : option string) (w : world) : bool :=
  match cache with
  | Some c =>
      let cachedir := dirname os (canonical os c) in
      negb (bool_decide (cachedir ∈ dirs w))
      && (denied os cachedir || exists_at w cachedir)
  | None => false
  end.

(** The bytes of a text that are not whitespace, in order. *)
Fixpoint squeeze (s : string) : string :=
  match s with
  | "" => ""
  | String c rest => if isspace c then squeeze rest else String c (squeeze rest)
  end.

(** The strings of a list one after the other. *)
Definition glue (l : list string) : string := foldr String.append "" l.

(** No byte of the string is a line feed. *)
Definition one_liner (s : string) : bool :=
  all_chars (fun c => negb (Ascii.eqb c LF)) s.

(** ** Concrete environments

    Small worlds on which the statements below are exercised. *)

Module Demo.

(** A shell that knows three commands.  Starting anything in
    [/nowhere] fails; an unknown command ends with code 127. *)
Definition run (cmd cwd : string) (fs : gmap string string)
    : completed * gmap string string :=
  if bool_decide (cwd = "/nowhere") then (LaunchFailed, fs)
  else if bool_decide (cmd = "echo hi") then (Exited 0 (String "h" (String "i" (String LF ""))), fs)
  else if bool_decide (cmd = "ls") then
    (Exited 0 ("b.c" +:+ String LF ("a.c" +:+ String LF ("b.c" +:+ String LF ""))), fs)
  else if bool_decide (cmd = "false") then (Exited 1 "", fs)
  else (Exited 127 "", fs).

(** [os.path.dirname] on the paths used below. *)
Definition parent (p : string) : string :=
  if bool_decide (p = "/tmp/cache") then "/tmp"
  else if bool_decide (p = "/tmp/notes") then "/tmp"
  else if bool_decide (p = "/ro/cache/files") then "/ro/cache"
  else if bool_decide (p = "/ro/cache") then "/ro"
  else "/".

(** Nothing may be created or written below [/ro]. *)
Definition read_only (p : string) : bool :=
  bool_decide (p = "/ro/cache") || bool_decide (p = "/ro/cache/files").

Definition os : OS :=
  {| getcwd := "/home/user";
     expandvars := id;
     expanduser := id;
     normpath := id;
     realpath := id;
     dirname := parent;
     denied := read_only;
     shell := run |}.

(** A world without regular files. *)
Definition empty_world : world :=
  {| files := ∅; dirs := {[ "/"; "/tmp"; "/ro" ]}; spawned := [] |}.

(** A world whose cache file holds an older list. *)
Definition cached_world : world :=
  {| files := {[ "/tmp/cache" := "old.c" ]};
     dirs := {[ "/"; "/tmp"; "/ro" ]};
     spawned := [] |}.

(** A world in which a directory stands where the cache file is to
    be. *)
Definition blocked_world : world :=
  {| files := ∅; dirs := {[ "/"; "/tmp"; "/tmp/cache" ]}; spawned := [] |}.

Definition hi : SimpleScanner :=
  SimpleScanner_init os "test" "echo hi" (PyInt 0) None None (Some "/tmp/cache").

Definition lister : SimpleScanner :=
  SimpleScanner_init os "test" "ls" (PyInt 0) None None None.

Definition failing : SimpleScanner :=
  SimpleScanner_init os "test" "false" (PyInt 0) None None (Some "/tmp/cache").

(** A tree in which [/srv/link] is a symbolic link to
    [/data/project/src]: the directory [/srv/link/..] is
    [/data/project], while [normpath] shortens the text to [/srv].  The
    marker file lies in [/data/project] only. *)
Definition link_normpath (p : string) : string :=
  if bool_decide (p = "/srv/link/..") then "/srv" else p.

Definition link_shell (cmd cwd : string) (fs : gmap string string)
    : completed * gmap string string :=
  if bool_decide (cmd = "test -f marker") then
    if bool_decide (cwd = "/srv/link/..") then (Exited 0 "", fs)
    else (Exited 1 "", fs)
  else (Exited 127 "", fs).

Definition link_os : OS :=
  {| getcwd := "/home/user";
     expandvars := id;
     expanduser := id;
     normpath := link_normpath;
     realpath := id;
     dirname := parent;
     denied := read_only;
     shell := link_shell |}.

Definition marked : SimpleScanner :=
  SimpleScanner_init link_os "project" "ls" (PyInt 0)
    (Some "test -f marker") (Some "/opt/work") None.


(** A section whose cache file is to lie in a directory that does not
    exist and cannot be created. *)
Definition locked_rule : RawConfigParser :=
  {| _defaults := ∅;
     _sections := {[ "locked" :=
                      {[ "__name__" := "locked"; "type" := "simple";
                         "cmd" := "ls"; "cache" := "/ro/cache/files" ]} ]} |}.

(** The same section with [cmd = echo] added. *)
Definition some_rule_cmd : RawConfigParser :=
  {| _defaults := ∅;
     _sections := {[ "some-rule" :=
                      {[ "__name__" := "some-rule"; "type" := "simple";
                         "cmd" := "echo" ]} ]} |}.

Definition weights : Weights :=
  {| contiguous_bonus := 8;
     boundary_bonus := 6;
     leading_gap_penalty := 2;
     interior_gap_penalty := 1 |}.

End Demo.

(** ** Facts about the byte-string primitives *)

Section StringFacts.

Implicit Types (s t ws rest tok : string) (c : ascii) (ts : list string).

Lemma append_cons c s t : String c s +:+ t = String c (s +:+ t).
Proof. reflexivity. Qed.

Lemma append_empty_r s : s +:+ "" = s.
Proof. induction s as [|c s IH]; [done|]. by rewrite append_cons, IH. Qed.

Lemma append_assoc s t rest : (s +:+ t) +:+ rest = s +:+ t +:+ rest.
Proof. induction s as [|c s IH]; [done|]. by rewrite !append_cons, IH. Qed.

Lemma flush_word t : word t = true -> flush t = [t].
Proof. by destruct t. Qed.

Lemma word_nospace t : word t = true -> nospace t = true.
Proof. by destruct t. Qed.

Lemma word_snoc tok c :
  nospace tok = true -> isspace c = false -> word (tok +:+ String c "") = true.
Proof.
  intros Htok Hc. assert (nospace (tok +:+ String c "") = true) as Hn.
  { induction tok as [|d tok IH]; simpl in *.
    - unfold nospace; simpl. by rewrite Hc.
    - rewrite append_cons. unfold nospace in *; simpl in *.
      apply andb_true_iff in Htok as [-> Htok]. simpl. by apply IH. }
  destruct tok; [|rewrite append_cons in *]; done.
Qed.

(** A run without whitespace is moved into the token under
    construction. *)
Lemma split_from_nospace t tok rest :
  nospace t = true -> split_from tok (t +:+ rest) = split_from (tok +:+ t) rest.
Proof.
  revert tok. induction t as [|c t IH]; intros tok Ht.
  - by rewrite append_empty_r.
  - unfold nospace in Ht; simpl in Ht. apply andb_true_iff in Ht as [Hc Ht].
    rewrite append_cons. simpl. apply negb_true_iff in Hc. rewrite Hc.
    rewrite (IH _ Ht). f_equal.
    by rewrite append_assoc.
Qed.

(** Leading whitespace is skipped. *)
Lemma split_from_allspace ws rest :
  allspace ws = true -> split_from "" (ws +:+ rest) = split_from "" rest.
Proof.
  induction ws as [|c ws IH]; intros Hws; [done|].
  unfold allspace in Hws; simpl in Hws. apply andb_true_iff in Hws as [Hc Hws].
  rewrite append_cons. simpl. rewrite Hc. simpl. by apply IH.
Qed.

(** At a separator or at the end the token is emitted. *)
Lemma split_from_breaks tok rest :
  breaks rest = true -> split_from tok rest = flush tok ++ split_from "" rest.
Proof.
  destruct rest as [|c rest]; simpl; intros Hb.
  - by rewrite app_nil_r.
  - by rewrite Hb.
Qed.

Lemma Tokens_split s ts : Tokens s ts -> split s = ts.
Proof.
  unfold split. induction 1 as [ws Hws|ws t rest ts Hws Ht Hb _ IH].
  - rewrite <- (append_empty_r ws). by rewrite split_from_allspace.
  - rewrite split_from_allspace by done.
    rewrite split_from_nospace by by apply word_nospace.
    rewrite split_from_breaks by done. simpl.
    by rewrite flush_word, IH.
Qed.

Lemma Tokens_space c s ts :
  isspace c = true -> Tokens s ts -> Tokens (String c s) ts.
Proof.
  intros Hc [ws Hws|ws t rest ts' Hws Ht Hb Hts].
  - apply Tokens_end. unfold allspace in *; simpl. by rewrite Hc.
  - rewrite <- append_cons. apply Tokens_word; try done.
    unfold allspace in *; simpl. by rewrite Hc.
Qed.

Lemma Tokens_single t : word t = true -> Tokens t [t].
Proof.
  intros Ht.
  pose proof (Tokens_word "" t "" [] eq_refl Ht eq_refl (Tokens_end "" eq_refl)) as H.
  rewrite append_empty_r in H. exact H.
Qed.

Lemma Tokens_split_from tok s :
  nospace tok = true -> Tokens (tok +:+ s) (split_from tok s).
Proof.
  revert tok. induction s as [|c s IH]; intros tok Htok; simpl.
  - rewrite append_empty_r. destruct tok as [|d tok]; simpl.
    + by apply Tokens_end.
    + by apply Tokens_single.
  - destruct (isspace c) eqn:Hc.
    + pose proof (Tokens_space c s _ Hc (IH "" eq_refl)) as Hrest.
      destruct tok as [|d tok]; simpl; [done|].
      by apply (Tokens_word "" (String d tok) (String c s)).
    + replace (tok +:+ String c s) with ((tok +:+ String c "") +:+ s)
        by by rewrite append_assoc.
      apply IH. apply word_nospace. by apply word_snoc.
Qed.

(** [split] yields exactly the tokens of its argument. *)
Lemma split_Tokens s : Tokens s (split s).
Proof. apply (Tokens_split_from "" s eq_refl). Qed.

Lemma Tokens_words s ts : Tokens s ts -> Forall (fun t => word t = true) ts.
Proof. induction 1; constructor; done. Qed.

Lemma lstrip_word t : word t = true -> lstrip t = t.
Proof.
  destruct t as [|c t]; [done|]. unfold word, nospace; simpl.
  intros [Hc _]%andb_true_iff. apply negb_true_iff in Hc. by rewrite Hc.
Qed.

Lemma rstrip_word t : word t = true -> rstrip t = t.
Proof.
  induction t as [|c t IH]; [done|]. unfold word, nospace; simpl.
  intros [Hc Ht]%andb_true_iff. apply negb_true_iff in Hc.
  destruct t as [|d t]; simpl in *; [by rewrite Hc|].
  rewrite IH by done. done.
Qed.

Lemma strip_word t : word t = true -> strip t = t.
Proof. intros Ht. unfold strip. by rewrite lstrip_word, rstrip_word. Qed.

(** The list comprehension over the tokens changes nothing. *)
Lemma strip_split s : strip <$> split s = split s.
Proof.
  pose proof (Tokens_words _ _ (split_Tokens s)) as Hw.
  induction Hw as [|t ts Ht _ IH]; [done|].
  rewrite fmap_cons, IH. by rewrite strip_word.
Qed.

Lemma rstrip_first s c :
  first_char s = Some c -> isspace c = false -> first_char (rstrip s) = Some c.
Proof.
  destruct s as [|d s]; [done|]. simpl. intros [= ->] Hc.
  destruct (rstrip s); [by rewrite Hc|done].
Qed.

Lemma rstrip_last s : not_space (last_char (rstrip s)) = true.
Proof.
  induction s as [|c s IH]; [done|]. simpl.
  destruct (rstrip s) as [|d r] eqn:Hr.
  - destruct (isspace c) eqn:Hc; simpl; [done|by rewrite Hc].
  - exact IH.
Qed.

Lemma lstrip_first s : not_space (first_char (lstrip s)) = true.
Proof.
  induction s as [|c s IH]; [done|]. simpl.
  destruct (isspace c) eqn:Hc; [done|]. simpl. by rewrite Hc.
Qed.

(** Whatever the argument, the result of [strip] has whitespace at
    neither end. *)
Lemma strip_trimmed s : trimmed (strip s) = true.
Proof.
  unfold trimmed, strip. rewrite rstrip_last, andb_true_r.
  pose proof (lstrip_first s) as Hf.
  destruct (first_char (lstrip s)) as [c|] eqn:Hc.
  - simpl in Hf. apply negb_true_iff in Hf.
    rewrite (rstrip_first _ _ Hc Hf). simpl. by rewrite Hf.
  - destruct (lstrip s); done.
Qed.

Lemma Tokens_join ts :
  Forall (fun t => word t = true) ts -> Tokens (cache_text ts) ts.
Proof.
  unfold cache_text. induction 1 as [|t ts Ht Hts IH]; [by apply Tokens_end|].
  destruct ts as [|t' ts].
  - by apply Tokens_single.
  - change (join (String LF "") (t :: t' :: ts))
      with (t +:+ String LF (join (String LF "") (t' :: ts))).
    apply (Tokens_word "" t); try done.
    by apply Tokens_space.
Qed.

(** Reading back what [scan] wrote to the cache gives the same list. *)
Lemma split_cache_text s : split (cache_text (split s)) = split s.
Proof. apply Tokens_split, Tokens_join, (Tokens_words s), split_Tokens. Qed.

End StringFacts.

(** ** [scan], branch by branch *)

Section ScanFacts.

Variable os : OS.
Implicit Types (self : SimpleScanner) (path : option string) (w : world).

Ltac run_scan :=
  unfold scan, served_from_cache, discovery, scan_cwd, with_cache, after_run,
    cache_refused, mbind, M_bind, mret, M_ret, raise, path_exists, read_file,
    write_file, communicate in *.

(** The first branch: the cache path is read, nothing else happens; a
    path that does not hold a regular file makes [open] raise. *)
Lemma scan_cached self path rescan w :
  served_from_cache self rescan w = true ->
  exists c,
    _cache self = Some c /\ rescan = false /\
    scan os self path rescan w =
      (match files w !! c with
       | Some data => Return (split data)
       | None => Raise (IOError c)
       end, w).
Proof.
  run_scan. destruct (_cache self) as [c|]; [|done].
  intros [He Hr]%andb_true_iff. apply negb_true_iff in Hr.
  exists c. repeat split; try done.
  rewrite He, Hr. simpl. destruct (files w !! c); [|done].
  by rewrite strip_split.
Qed.

(** The first branch, when it returns. *)
Lemma scan_cached_return self path rescan w l w' :
  served_from_cache self rescan w = true ->
  scan os self path rescan w = (Return l, w') ->
  exists c data,
    _cache self = Some c /\ files w !! c = Some data /\ rescan = false /\
    l = split data /\ w' = w.
Proof.
  intros Hs. destruct (scan_cached self path rescan w Hs) as (c & Hc & Hr & ->).
  destruct (files w !! c) as [data|] eqn:Hd; [|done].
  intros [= <- <-]. by exists c, data.
Qed.

(** The second branch, when the command could not be started. *)
Lemma scan_launch_failed self path rescan w fs :
  served_from_cache self rescan w = false ->
  discovery os self path w = (LaunchFailed, fs) ->
  scan os self path rescan w =
    (Raise (SubprocessError (_cmd self) (scan_cwd os self path) (Some "")),
     after_run w (_cmd self) (scan_cwd os self path) fs).
Proof.
  run_scan. intros Hs Hd.
  destruct (_cache self) as [c|]; simpl in *; rewrite ?Hs; simpl; by rewrite Hd.
Qed.

(** The second branch, when the command ended with a nonzero code. *)
Lemma scan_nonzero self path rescan w fs returncode out :
  served_from_cache self rescan w = false ->
  discovery os self path w = (Exited returncode out, fs) ->
  returncode ≠ 0 ->
  scan os self path rescan w =
    (Raise (SubprocessError (_cmd self) (scan_cwd os self path) None),
     after_run w (_cmd self) (scan_cwd os self path) fs).
Proof.
  run_scan. intros Hs Hd Hrc.
  destruct (_cache self) as [c|]; simpl in *; rewrite ?Hs; simpl; rewrite Hd;
    by rewrite bool_decide_eq_true_2.
Qed.

(** The second branch, when the command ended with code 0 and the
    cache, if there is one, can be written. *)
Lemma scan_listed self path rescan w fs out :
  served_from_cache self rescan w = false ->
  discovery os self path w = (Exited 0 out, fs) ->
  cache_refused os self w = false ->
  scan os self path rescan w =
    (Return (split out),
     with_cache self (split out)
       (after_run w (_cmd self) (scan_cwd os self path) fs)).
Proof.
  run_scan. intros Hs Hd Hw.
  destruct (_cache self) as [c|]; simpl in *; rewrite ?Hs; simpl; rewrite Hd;
    simpl; [|by rewrite strip_split].
  apply negb_false_iff in Hw. unfold can_write in *. simpl. rewrite Hw.
  by rewrite strip_split.
Qed.

(** The second branch, when the command ended with code 0 and the
    cache file cannot be opened for writing. *)
Lemma scan_refused self path rescan w fs out c :
  served_from_cache self rescan w = false ->
  discovery os self path w = (Exited 0 out, fs) ->
  _cache self = Some c ->
  can_write os w c = false ->
  scan os self path rescan w =
    (Raise (IOError c), after_run w (_cmd self) (scan_cwd os self path) fs).
Proof.
  run_scan. intros Hs Hd Hc Hw. rewrite Hc in *. simpl in *.
  rewrite Hs. simpl. rewrite Hd. simpl. unfold can_write in *. simpl.
  by rewrite Hw.
Qed.

End ScanFacts.

(** ** What [scan] promises *)

Section ScanClaims.

Variable os : OS.
Implicit Types (self : SimpleScanner) (path : option string) (w : world).

(** Every run of the second branch ends in one of three ways: the
    command failed, the cache could not be written, or a list is
    returned. *)
Lemma scan_fresh_cases self path rescan w :
  served_from_cache self rescan w = false ->
  let cmd := _cmd self in
  let cwd := scan_cwd os self path in
  let w1 := after_run w cmd cwd (discovery os self path w).2 in
  (cannot_produce (discovery os self path w).1 /\
   exists err, scan os self path rescan w = (Raise (SubprocessError cmd cwd err), w1))
  \/ (exists out c, (discovery os self path w).1 = Exited 0 out /\
      _cache self = Some c /\ can_write os w c = false /\
      scan os self path rescan w = (Raise (IOError c), w1))
  \/ (exists out, (discovery os self path w).1 = Exited 0 out /\
      cache_refused os self w = false /\
      scan os self path rescan w = (Return (split out), with_cache self (split out) w1)).
Proof.
  intros Hs cmd cwd w1. subst w1.
  destruct (discovery os self path w) as [c fs] eqn:Hd. simpl.
  destruct c as [|rc out].
  - left. split; [done|]. eexists. by apply scan_launch_failed.
  - destruct (decide (rc = 0)) as [->|Hrc].
    + right. destruct (cache_refused os self w) eqn:Hw.
      * left. unfold cache_refused in Hw.
        destruct (_cache self) as [c|] eqn:Hc; [|done].
        apply negb_true_iff in Hw. exists out, c.
        split; [done|]. split; [done|]. split; [done|].
        by apply (scan_refused os self path rescan w fs out c).
      * right. exists out. split; [done|]. split; [done|]. by apply scan_listed.
    + left. split; [done|]. eexists. by eapply scan_nonzero.
Qed.



(** C2: every string of a list that [scan] returns, from the command or
    from the cache file, has no leading and no trailing whitespace. *)
Theorem scan_results_trimmed self path rescan w l w' :
  scan os self path rescan w = (Return l, w') ->
  Forall (fun s => trimmed s = true) l.
Proof.
  assert (forall text, Forall (fun s => trimmed s = true) (split text)) as Hall.
  { intros text. rewrite <- strip_split. apply Forall_fmap, Forall_true.
    intros s. apply strip_trimmed. }
  destruct (served_from_cache self rescan w) eqn:Hs.
  - intros (c & data & _ & _ & _ & -> & _)%scan_cached_return; [|done].
    apply Hall.
  - destruct (scan_fresh_cases self path rescan w Hs)
      as [[_ [err ->]]|[(out & c & _ & _ & _ & ->)|(out & _ & _ & ->)]];
      [done|done|]. intros [= <- _]. apply Hall.
Qed.

(** C4: a list that [scan] returns holds one entry per
    whitespace-separated token of the text it read (the command's output
    or the cache file), in the order of appearance: nothing is merged,
    dropped or moved. *)
Theorem scan_returns_tokens_in_order self path rescan w l w' :
  scan os self path rescan w = (Return l, w') ->
  exists source,
    scanned_text os self path rescan w = Some source /\ Tokens source l.
Proof.
  unfold scanned_text. destruct (served_from_cache self rescan w) eqn:Hs.
  - intros (c & data & Hc & Hd & _ & -> & _)%scan_cached_return; [|done].
    exists data. rewrite Hc. simpl. split; [done|]. apply split_Tokens.
  - destruct (scan_fresh_cases self path rescan w Hs)
      as [[_ [err ->]]|[(out & c & _ & _ & _ & ->)|(out & Hd & _ & ->)]];
      [done|done|]. intros [= <- _]. exists out. rewrite Hd. split; [done|].
    apply split_Tokens.
Qed.

(** C9: once a scan has run the discovery command and stored its list
    in the cache, a scan without [rescan] returns the same list in the
    same order, in every world whose cache file still holds what was
    written. *)
Theorem cache_round_trip self path path' rescan w l w' c w'' :
  _cache self = Some c ->
  served_from_cache self rescan w = false ->
  scan os self path rescan w = (Return l, w') ->
  files w'' !! c = files w' !! c ->
  scan os self path' false w'' = (Return l, w'').
Proof.
  intros Hc Hs Hscan Hsame.
  destruct (scan_fresh_cases self path rescan w Hs)
    as [[_ [err Hr]]|[(out & c' & _ & _ & _ & Hr)|(out & _ & _ & Hr)]];
    rewrite Hr in Hscan; [done|done|]. injection Hscan as <- <-.
  assert (files w'' !! c = Some (cache_text (split out))) as Hfile.
  { rewrite Hsame. unfold with_cache. rewrite Hc. simpl. apply lookup_insert_eq. }
  assert (served_from_cache self false w'' = true) as Hserved.
  { unfold served_from_cache, exists_at. rewrite Hc, Hfile. done. }
  destruct (scan_cached os self path' false w'' Hserved) as (c' & Hc' & _ & ->).
  rewrite Hc in Hc'. injection Hc' as <-. rewrite Hfile.
  by rewrite split_cache_text.
Qed.


End ScanClaims.

(** ** The statements about [scan] on concrete worlds *)


(** C1 as stated fails on [Demo.hi] in [Demo.blocked_world], where a
    directory stands at the cache path: the result is not served from
    the cache, the discovery command starts and ends with code 0, and
    [scan] neither returns a list nor raises [SubprocessError]: the
    failed write of the cache raises [IOError]. *)
Lemma scan_cache_write_raises_ioerror :
  served_from_cache Demo.hi true Demo.blocked_world = false
  /\ (discovery Demo.os Demo.hi None Demo.blocked_world).1
     = Exited 0 (String "h" (String "i" (String LF "")))
  /\ scan Demo.os Demo.hi None true Demo.blocked_world
     = (Raise (IOError "/tmp/cache"),
        after_run Demo.blocked_world "echo hi" "/home/user" ∅).
Proof. repeat split; reflexivity. Qed.

(** [echo hi] without a cache file: the single entry is trimmed. *)
Lemma scan_results_trimmed_witness :
  scan Demo.os Demo.hi None false Demo.empty_world
  = (Return ["hi"], with_cache Demo.hi ["hi"]
                      (after_run Demo.empty_world "echo hi" "/home/user" ∅))
  /\ Forall (fun s => trimmed s = true) ["hi"].
Proof.
  assert (scan Demo.os Demo.hi None false Demo.empty_world
          = (Return ["hi"], with_cache Demo.hi ["hi"]
                      (after_run Demo.empty_world "echo hi" "/home/user" ∅))) as H
    by reflexivity.
  split; [exact H|].
  exact (scan_results_trimmed Demo.os Demo.hi None false Demo.empty_world _ _ H).
Defined.

(** A listing with a repeated name that is not in sorted order: the
    three entries come back as they were printed. *)
Lemma scan_returns_tokens_in_order_witness :
  (scan Demo.os Demo.lister None false Demo.empty_world).1
  = Return ["b.c"; "a.c"; "b.c"]
  /\ exists source,
       scanned_text Demo.os Demo.lister None false Demo.empty_world = Some source
       /\ Tokens source ["b.c"; "a.c"; "b.c"].
Proof.
  split; [reflexivity|].
  apply (scan_returns_tokens_in_order Demo.os Demo.lister None false
           Demo.empty_world ["b.c"; "a.c"; "b.c"]
           (after_run Demo.empty_world "ls" "/home/user" ∅)).
  reflexivity.
Defined.

(** [echo hi] fills the cache; the next scan reads [hi] back. *)
Lemma cache_round_trip_witness :
  let w' := (scan Demo.os Demo.hi None true Demo.cached_world).2 in
  scan Demo.os Demo.hi (Some "/nowhere") false w' = (Return ["hi"], w').
Proof.
  intros w'.
  apply (cache_round_trip Demo.os Demo.hi None (Some "/nowhere") true
           Demo.cached_world ["hi"] w' "/tmp/cache" w');
    reflexivity.
Defined.



(** ** What [is_suitable] answers *)

Section SuitableClaims.

Variable os : OS.
Implicit Types (self : SimpleScanner) (path : string) (w : world).

(** C8, as the code has it: [is_suitable] returns [True] exactly when a
    [root_path] is set and the canonical form of the argument ([realpath]
    of [normpath]) starts with it, or a [detect_cmd] is set and ends with
    return code 0, or neither is set.  The detect command runs in the
    local [path] as it stands at that point: the canonical form when a
    [root_path] is set, the argument itself otherwise.  When the prefix
    test succeeds the detect command is not started. *)
Theorem is_suitable_true_iff self path w :
  let canon := realpath os (normpath os path) in
  let cwd := match _root_path self with Some _ => canon | None => path end in
  ((is_suitable os self path w).1 = Return true <->
     (exists root, _root_path self = Some root /\ startswith canon root = true)
     \/ (exists d out, _detect_cmd self = Some d
                       /\ (shell os d cwd (files w)).1 = Exited 0 out)
     \/ (_root_path self = None /\ _detect_cmd self = None))
  /\ (forall root, _root_path self = Some root -> startswith canon root = true ->
        is_suitable os self path w = (Return true, w)).
Proof.
  intros canon cwd. subst canon cwd.
  unfold is_suitable, root_path_block, fallthrough, communicate,
    mbind, M_bind, mret, M_ret, raise.
  destruct (_root_path self) as [root|] eqn:Hroot; simpl.
  - destruct (startswith (realpath os (normpath os path)) root) eqn:Hpre; simpl.
    + split; [|done]. split; [|done]. intros _. left. by exists root.
    + split; [|intros ? [= <-] ?; congruence].
      destruct (_detect_cmd self) as [d|] eqn:Hd; simpl.
      * destruct (shell os d (realpath os (normpath os path)) (files w))
          as [[|rc out] fs] eqn:Hrun; simpl.
        -- split; [done|]. intros [(r & [= <-] & ?)|[(d' & o & [= <-] & Hx)|[? _]]];
             try (rewrite Hrun in Hx; simpl in Hx); congruence.
        -- case_bool_decide as Hrc; simpl.
           ++ subst rc. split; [|done]. intros _. right. left.
              exists d, out. by rewrite Hrun.
           ++ split; [done|].
              intros [(r & [= <-] & ?)|[(d' & o & [= <-] & Hx)|[? _]]];
                try (rewrite Hrun in Hx; simpl in Hx); congruence.
      * split; [done|]. intros [(r & [= <-] & ?)|[(d' & o & ? & Hx)|[? _]]];
          try (rewrite Hrun in Hx; simpl in Hx); congruence.
  - split; [|done].
    destruct (_detect_cmd self) as [d|] eqn:Hd; simpl.
    + destruct (shell os d path (files w)) as [[|rc out] fs] eqn:Hrun; simpl.
      * split; [done|]. intros [(r & ? & _)|[(d' & o & [= <-] & Hx)|[_ ?]]];
          try (rewrite Hrun in Hx; simpl in Hx); congruence.
      * case_bool_decide as Hrc; simpl.
        -- subst rc. split; [|done]. intros _. right. left.
           exists d, out. by rewrite Hrun.
        -- split; [done|].
           intros [(r & ? & _)|[(d' & o & [= <-] & Hx)|[_ ?]]];
             try (rewrite Hrun in Hx; simpl in Hx); congruence.
    + split; [|done]. intros _. right. by right.
Qed.

End SuitableClaims.

(** In [Demo.link_os] the prefix test fails for [/srv/link/..] and the
    detect command, run in [/srv/link/..], ends with code 0. *)
Lemma is_suitable_true_iff_witness :
  (is_suitable Demo.link_os
     (SimpleScanner_init Demo.link_os "project" "ls" (PyInt 0)
        (Some "test -f marker") None None)
     "/srv/link/.." Demo.empty_world).1 = Return true.
Proof.
  apply (is_suitable_true_iff Demo.link_os).
  right. left. exists "test -f marker", "". split; reflexivity.
Defined.

(** C8 as stated fails on [Demo.marked]: a [detect_cmd] is set and,
    run in the given path, ends with return code 0, yet [is_suitable]
    returns [False], because with a [root_path] set the command is
    started in the canonical path [/srv]. *)
Lemma is_suitable_detects_in_canonical_path :
  _detect_cmd Demo.marked = Some "test -f marker"
  /\ (shell Demo.link_os "test -f marker" "/srv/link/.." ∅).1 = Exited 0 ""
  /\ is_suitable Demo.link_os Demo.marked "/srv/link/.." Demo.empty_world
     = (Return false, after_run Demo.empty_world "test -f marker" "/srv" ∅).
Proof. repeat split; reflexivity. Qed.

(** ** What [scanner_from_configparser] yields *)

Section ConfigClaims.

Context {P : Type} `{ConfigParser P}.
Variable os : OS.
Implicit Types (section : string) (parser : P) (w : world).

Lemma get_parser_error parser section option e :
  get parser section option = Raise e -> parser_error e.
Proof.
  intros [->| ->]%get_raises; [left|right]; eauto.
Qed.


Lemma keyword_parser_error parser section name e :
  keyword parser section name = Raise e -> parser_error e.
Proof.
  unfold keyword. destruct (has_option parser section name); [|done].
  destruct (get parser section name) eqn:Hg; [done|].
  intros [= <-]. by eapply get_parser_error.
Qed.

(** Reading the options fails only with an exception of the parser,
    and succeeds only when [cmd] can be read. *)
Lemma options_outcome parser section :
  match options parser section with
  | Return (detect, root, prio, cache, cmd) =>
      keyword parser section "detect_cmd" = Return detect
      /\ keyword parser section "root_path" = Return root
      /\ keyword parser section "priority" = Return prio
      /\ keyword parser section "cache" = Return cache
      /\ get parser section "cmd" = Return cmd
  | Raise e => parser_error e
  end.
Proof.
  unfold options, mbind, result_bind, mret, result_ret.
  destruct (keyword parser section "detect_cmd") eqn:H1;
    [|by eapply keyword_parser_error].
  destruct (keyword parser section "root_path") eqn:H2;
    [|by eapply keyword_parser_error].
  destruct (keyword parser section "priority") eqn:H3;
    [|by eapply keyword_parser_error].
  destruct (keyword parser section "cache") eqn:H4;
    [|by eapply keyword_parser_error].
  destruct (get parser section "cmd") as [cmd|e] eqn:H5;
    [|by eapply get_parser_error].
  done.
Qed.

(** [from_configparser] reads the options and calls the constructor. *)
Lemma from_configparser_run section parser w :
  from_configparser os section parser w =
    match options parser section with
    | Return (detect, root, prio, cache, cmd) =>
        __init__ os section (one_line cmd) (from_option PyString (PyInt 0) prio)
          (one_line <$> detect) root cache w
    | Raise e => (Raise e, w)
    end.
Proof.
  unfold from_configparser, options, lift, mbind, M_bind, result_bind, mret,
    result_ret.
  destruct (keyword parser section "detect_cmd"); [|done].
  destruct (keyword parser section "root_path"); [|done].
  destruct (keyword parser section "priority"); [|done].
  destruct (keyword parser section "cache"); [|done].
  by destruct (get parser section "cmd").
Qed.

(** The constructor raises exactly when the directory of the cache file
    is missing and cannot be created; otherwise it returns the object
    with the attributes set, in a world that has the same regular files
    and the same record of commands. *)
Lemma init_outcome name cmd prio detect root cache w :
  let self := SimpleScanner_init os name cmd prio detect root cache in
  if cachedir_refused os cache w
  then exists c, cache = Some c
                 /\ __init__ os name cmd prio detect root cache w
                    = (Raise (OSError (dirname os (canonical os c))), w)
  else exists w', __init__ os name cmd prio detect root cache w = (Return self, w')
                  /\ files w' = files w /\ spawned w' = spawned w.
Proof.
  unfold __init__, cachedir_refused, isdir, makedirs, mbind, M_bind, mret, M_ret.
  destruct cache as [c|]; simpl; [|by eexists].
  case_bool_decide as Hdir; simpl; [by eexists|].
  destruct (denied os (dirname os (canonical os c))
            || exists_at w (dirname os (canonical os c))); simpl.
  - by exists c.
  - by eexists.
Qed.




End ConfigClaims.



(** ** The matcher decides subsequences *)

Section MatcherFacts.

Import Matcher.
Implicit Types (w : Weights) (q cand : string) (same : ascii -> ascii -> bool).

Lemma align_empty w sens cand i last before :
  align w sens "" cand i last before = Some (0, []).
Proof. by destruct cand. Qed.

(** An alignment is found exactly for the subsequences. *)
Lemma align_Subsequence w sens q cand i last before :
  is_Some (align w sens q cand i last before)
  <-> Subsequence (same_char sens) q cand.
Proof.
  split.
  - revert q i last before.
    induction cand as [|c cand IH]; intros [|y q] i last before; simpl;
      try (intros _; apply Subsequence_empty).
    + by intros [? ?].
    + destruct (same_char sens y c) eqn:Hsame.
      * destruct (align w sens q cand (S i) (Some i) (Some c))
          as [[s ps]|] eqn:Htake.
        -- intros _. apply Subsequence_take; [done|].
           apply (IH q (S i) (Some i) (Some c)). by rewrite Htake.
        -- intros Hskip. apply Subsequence_skip. by eapply IH.
      * intros Hskip. apply Subsequence_skip. by eapply IH.
  - intros Hsub. revert i last before.
    induction Hsub as [cand|y c q cand Hsame _ IH|c q cand _ IH];
      intros i last before.
    + by rewrite align_empty.
    + simpl. rewrite Hsame.
      destruct (IH (S i) (Some i) (Some c)) as [[s ps] ->]. done.
    + destruct q as [|y q]; [by rewrite align_empty|]. simpl.
      destruct (same_char sens y c); [|by apply IH].
      destruct (align w sens q cand (S i) (Some i) (Some c)) as [[s ps]|];
        [done|by apply IH].
Qed.

Lemma Subsequence_tail same y q cand :
  Subsequence same (String y q) cand -> Subsequence same q cand.
Proof.
  induction cand as [|c cand IH]; inversion 1; subst.
  - by apply Subsequence_skip.
  - apply Subsequence_skip. by apply IH.
Qed.

Lemma fits_Subsequence same q cand :
  fits same q cand = true <-> Subsequence same q cand.
Proof.
  split.
  - revert q. induction cand as [|c cand IH]; intros [|y q]; simpl;
      try done; try (intros _; apply Subsequence_empty).
    destruct (same y c) eqn:Hsame; intros Hfit.
    + apply Subsequence_take; [done|by apply IH].
    + apply Subsequence_skip. by apply IH.
  - revert q. induction cand as [|c cand IH]; intros [|y q]; simpl; try done.
    + inversion 1.
    + inversion 1 as [|? ? ? ? Hsame Hrest|? ? ? Hrest]; subst.
      * rewrite Hsame. by apply IH.
      * destruct (same y c); apply IH; [by eapply Subsequence_tail|done].
Qed.

(** The matcher matches exactly when the earliest-position test
    succeeds under the case rule of the query. *)
Lemma matched_score w q (c : Candidate) :
  matched (score w q c) = fits (same_char (has_upper q)) q (text c).
Proof.
  unfold score.
  pose proof (align_Subsequence w (has_upper q) q (text c) 0 None None) as Ha.
  pose proof (fits_Subsequence (same_char (has_upper q)) q (text c)) as Hf.
  destruct (align w (has_upper q) q (text c) 0 None None) as [[s ps]|]; simpl.
  - symmetry. apply Hf, Ha. done.
  - destruct (fits _ q (text c)) eqn:Hfit; [|done].
    destruct (proj2 Ha (proj1 Hf eq_refl)) as [? ?]. done.
Qed.

Lemma score_candidate w q (c : Candidate) r :
  score w q c = Match r -> candidate r = c.
Proof.
  unfold score. destruct (align _ _ _ _ _ _ _) as [[s ps]|]; [|done].
  by intros [= <-].
Qed.

Lemma better_cases (taken : Z * list nat) (skipped : option (Z * list nat)) :
  better taken skipped = taken \/ skipped = Some (better taken skipped).
Proof.
  destruct skipped as [other|]; simpl; [|by left].
  destruct (taken.1 <? other.1); [by right|by left].
Qed.

(** The positions that [align] returns satisfy the invariant of a match
    result. *)
Lemma align_Aligned w sens q cand i last before s ps :
  align w sens q cand i last before = Some (s, ps) ->
  Aligned (same_char sens) q cand i ps.
Proof.
  revert q i last before s ps.
  induction cand as [|c cand IH]; intros [|y q] i last before s ps; simpl;
    try done; try (intros [= <- <-]; apply Aligned_done).
  destruct (same_char sens y c) eqn:Hsame;
    [|intros Hskip; eapply Aligned_skip, IH, Hskip].
  destruct (align w sens q cand (S i) (Some i) (Some c)) as [[s' ps']|] eqn:Htake;
    [|intros Hskip; eapply Aligned_skip, IH, Hskip].
  intros [= Hbest].
  destruct (better_cases (transition w i last before c + s', i :: ps')
              (align w sens (String y q) cand (S i) last (Some c)))
    as [Htaken|Hskipped]; rewrite Hbest in *.
  - injection Htaken as -> ->. apply Aligned_take; [done|]. eapply IH, Htake.
  - eapply Aligned_skip, IH, Hskipped.
Qed.

(** An aligned sequence has one index per query character, within the
    candidate and strictly increasing. *)
Lemma Aligned_shape same q cand i ps :
  Aligned same q cand i ps ->
  length ps = String.length q
  /\ Forall (fun p => (i <= p < i + String.length cand)%nat) ps
  /\ StronglySorted lt ps.
Proof.
  induction 1 as [cand i|y c q cand i ps _ _ (Hlen & Hin & Hsort)
                  |c q cand i ps _ (Hlen & Hin & Hsort)]; simpl.
  - split_and!; constructor.
  - split_and!; [by rewrite Hlen| |].
    + constructor; [lia|]. eapply Forall_impl; [exact Hin|]. simpl. lia.
    + constructor; [done|]. eapply Forall_impl; [exact Hin|]. simpl. lia.
  - split_and!; [done| |done].
    eapply Forall_impl; [exact Hin|]. simpl. lia.
Qed.

Lemma Subsequence_prefix same q rest cand :
  Subsequence same (q +:+ rest) cand -> Subsequence same q cand.
Proof.
  revert q. induction cand as [|c cand IH]; intros [|y q] Hsub;
    try apply Subsequence_empty.
  - inversion Hsub.
  - rewrite append_cons in Hsub. inversion Hsub; subst.
    + apply Subsequence_take; [done|by apply IH].
    + apply Subsequence_skip, IH. by rewrite append_cons.
Qed.

Lemma Subsequence_weaken same1 same2 q cand :
  (forall a b, same1 a b = true -> same2 a b = true) ->
  Subsequence same1 q cand -> Subsequence same2 q cand.
Proof.
  intros Hw. induction 1.
  - apply Subsequence_empty.
  - apply Subsequence_take; auto.
  - by apply Subsequence_skip.
Qed.

Lemma has_upper_app q rest :
  has_upper (q +:+ rest) = has_upper q || has_upper rest.
Proof.
  induction q as [|c q IH]; [done|].
  rewrite append_cons. simpl. by rewrite IH, orb_assoc.
Qed.

(** Under smart case a longer query never compares more loosely than
    its prefix. *)
Lemma same_char_prefix q rest a b :
  same_char (has_upper (q +:+ rest)) a b = true ->
  same_char (has_upper q) a b = true.
Proof.
  rewrite has_upper_app. destruct (has_upper q); simpl; [done|].
  destruct (has_upper rest); simpl; [|done].
  intros ->%Ascii.eqb_eq. unfold same_char. apply Ascii.eqb_refl.
Qed.

(** A candidate that matches a query matches every prefix of it. *)
Lemma score_prefix w q rest (c : Candidate) :
  matched (score w (q +:+ rest) c) = true -> matched (score w q c) = true.
Proof.
  rewrite !matched_score. rewrite !fits_Subsequence. intros Hsub.
  apply Subsequence_prefix in Hsub.
  eapply Subsequence_weaken; [|exact Hsub].
  apply same_char_prefix.
Qed.

Lemma score_positions w q (c : Candidate) r :
  score w q c = Match r ->
  Aligned (same_char (has_upper q)) q (text c) 0 (positions r).
Proof.
  unfold score.
  destruct (align w (has_upper q) q (text c) 0 None None) as [[s ps]|] eqn:Ha;
    [|done].
  intros [= <-]. simpl. eapply align_Aligned, Ha.
Qed.

(** C5: [score] returns no-match exactly when the query is not a
    subsequence of the candidate under the case rule in force for the
    query, and a match result whenever it is; being a function into
    match results and the non-match value, it has no error outcome. *)
Theorem score_no_match_iff w q (c : Candidate) :
  (score w q c = NoMatch
     <-> ~ Subsequence (same_char (has_upper q)) q (text c))
  /\ (Subsequence (same_char (has_upper q)) q (text c)
      -> exists r, score w q c = Match r /\ candidate r = c
                   /\ Aligned (same_char (has_upper q)) q (text c) 0 (positions r)).
Proof.
  pose proof (matched_score w q c) as Hm.
  pose proof (fits_Subsequence (same_char (has_upper q)) q (text c)) as Hf.
  destruct (score w q c) as [r|] eqn:Hs; simpl in Hm.
  - split.
    + split; [done|]. intros Hno. destruct Hno. by apply Hf.
    + intros _. exists r. split; [done|]. split; [by eapply score_candidate|].
      by eapply score_positions.
  - split.
    + split; [|done]. intros _ Hsub. apply Hf in Hsub. congruence.
    + intros Hsub. apply Hf in Hsub. congruence.
Qed.

(** C6: smart case.  A query with an uppercase letter matches exactly
    the candidates of which it is a subsequence character for character;
    a query without one matches exactly those of which it is a
    subsequence once letters are folded to lower case.  So [foo] matches
    [FOO.txt] and [Foo.txt], and [Foo] does not match [foo.txt]. *)
Theorem smart_case w :
  (forall q c, has_upper q = true ->
     (matched (score w q c) = true <-> Subsequence Ascii.eqb q (text c)))
  /\ (forall q c, has_upper q = false ->
        (matched (score w q c) = true <-> Subsequence caseless q (text c)))
  /\ matched (score w "foo" (named "FOO.txt")) = true
  /\ matched (score w "foo" (named "Foo.txt")) = true
  /\ matched (score w "Foo" (named "foo.txt")) = false.
Proof.
  split_and!.
  - intros q c Hq. rewrite matched_score, Hq. apply fits_Subsequence.
  - intros q c Hq. rewrite matched_score, Hq. apply fits_Subsequence.
  - by rewrite matched_score.
  - by rewrite matched_score.
  - by rewrite matched_score.
Qed.

End MatcherFacts.

(** ** The session narrows monotonically *)

Section SessionFacts.

Import Matcher Session.
Implicit Types (w : Weights) (q : string) (p : list Candidate) (s : SessionState).

Lemma narrow_cons w q (c : Candidate) p :
  narrow w q (c :: p) =
    if matched (score w q c) then c :: narrow w q p else narrow w q p.
Proof.
  unfold narrow, matches. simpl.
  destruct (score w q c) as [r|] eqn:Hs; simpl; [|done].
  by rewrite (score_candidate _ _ _ _ Hs).
Qed.

(** Narrowing only removes candidates; the survivors keep their order
    and their identity. *)
Lemma narrow_sublist w q p : narrow w q p `sublist_of` p.
Proof.
  induction p as [|c p IH]; [done|]. rewrite narrow_cons.
  destruct (matched (score w q c)).
  - by apply sublist_skip.
  - by apply sublist_cons.
Qed.

Lemma narrow_mono w q1 q2 p :
  (forall c, matched (score w q1 c) = true -> matched (score w q2 c) = true) ->
  narrow w q1 p `sublist_of` narrow w q2 p.
Proof.
  intros Himp. induction p as [|c p IH]; [done|]. rewrite !narrow_cons.
  destruct (matched (score w q1 c)) eqn:H1.
  - rewrite (Himp c H1). by apply sublist_skip.
  - destruct (matched (score w q2 c)); [by apply sublist_cons|done].
Qed.

Lemma narrow_narrow w q1 q2 p :
  (forall c, matched (score w q1 c) = true -> matched (score w q2 c) = true) ->
  narrow w q1 (narrow w q2 p) = narrow w q1 p.
Proof.
  intros Himp. induction p as [|c p IH]; [done|]. rewrite !narrow_cons.
  destruct (matched (score w q2 c)) eqn:H2.
  - rewrite narrow_cons. by rewrite IH.
  - rewrite IH. destruct (matched (score w q1 c)) eqn:H1; [|done].
    rewrite (Himp c H1) in H2. done.
Qed.

Lemma narrow_empty_query w p : narrow w "" p = p.
Proof.
  induction p as [|c p IH]; [done|]. rewrite narrow_cons, IH.
  rewrite matched_score. by destruct (text c).
Qed.

Lemma type_in_snoc w q ch s :
  type_in w (q +:+ String ch "") s = append_char w ch (type_in w q s).
Proof.
  revert s. induction q as [|c q IH]; intros s; [done|].
  rewrite append_cons. simpl. apply IH.
Qed.

(** Typing a query character by character computes the pool that one
    scoring pass over the full pool computes. *)
Lemma type_in_pool w chars s :
  pool s = narrow w (query s) (full_pool s) ->
  let s' := type_in w chars s in
  pool s' = narrow w (query s +:+ chars) (full_pool s)
  /\ query s' = query s +:+ chars
  /\ full_pool s' = full_pool s.
Proof.
  revert s. induction chars as [|ch chars IH]; intros s Hs; simpl.
  - by rewrite append_empty_r.
  - destruct (IH (append_char w ch s)) as (Hp & Hq & Hf).
    + simpl. rewrite Hs. apply narrow_narrow. intros c. apply score_prefix.
    + simpl in *. rewrite Hp, Hq, Hf. by rewrite append_assoc.
Qed.

(** C7: monotonic narrowing.  Appending a character to the query of any
    session yields a pool that is a sublist of the pool before, so no
    candidate is added; the same holds between the pools that a scoring
    pass over the full pool computes for [q] and for [q] followed by
    [ch], and between the pools reached by typing them; typing a query
    and replacing the query reach the same pool. *)
Theorem monotonic_narrowing w :
  (forall ch s, pool (append_char w ch s) `sublist_of` pool s)
  /\ (forall q ch s,
        pool (replace_query w (q +:+ String ch "") s)
          `sublist_of` pool (replace_query w q s))
  /\ (forall found q ch,
        pool (type_in w (q +:+ String ch "") (start w found))
          `sublist_of` pool (type_in w q (start w found)))
  /\ (forall found q,
        pool (type_in w q (start w found))
        = pool (replace_query w q (start w found))).
Proof.
  split_and!.
  - intros ch s. apply narrow_sublist.
  - intros q ch s. simpl. apply narrow_mono. intros c. apply score_prefix.
  - intros found q ch. rewrite type_in_snoc. apply narrow_sublist.
  - intros found q.
    destruct (type_in_pool w q (start w found)) as (Hp & _ & _).
    + simpl. by rewrite narrow_empty_query.
    + exact Hp.
Qed.

Lemma chop_snoc q ch : chop (q +:+ String ch "") = q.
Proof.
  induction q as [|c q IH]; [done|]. rewrite append_cons. simpl. rewrite IH.
  by destruct q.
Qed.

(** Backspace after an append restores the query, the pool, the ranked
    results and the snapshot stack that were in effect before it. *)
Lemma delete_last_append_char w ch s :
  cursor s = 0%nat -> delete_last w (append_char w ch s) = s.
Proof.
  intros Hcur. unfold delete_last. simpl.
  destruct (query s +:+ String ch "") eqn:Hq.
  { by destruct (query s). }
  rewrite <- Hq, chop_snoc, Nat.eqb_refl. destruct s; simpl in *. by subst.
Qed.

End SessionFacts.

(** ** The matcher and the session on concrete inputs *)

(** [mn] is a subsequence of [main.go]: the matcher returns a match for
    that candidate. *)
Lemma score_no_match_iff_witness :
  exists r, Matcher.score Demo.weights "mn" (named "main.go") = Match r
            /\ candidate r = named "main.go"
            /\ Matcher.Aligned (Matcher.same_char false) "mn" "main.go" 0
                 (positions r).
Proof.
  apply (score_no_match_iff Demo.weights "mn" (named "main.go")).
  apply fits_Subsequence. reflexivity.
Defined.

(** [Main] has an uppercase letter and is matched character for
    character in [src/Main.go]. *)
Lemma smart_case_witness :
  Matcher.matched (Matcher.score Demo.weights "Main" (named "src/Main.go")) = true.
Proof.
  destruct (smart_case Demo.weights) as [Hsensitive _].
  apply Hsensitive; [reflexivity|].
  apply fits_Subsequence. reflexivity.
Defined.

(** The scenario of the specification: of [main.go], [pkg/main_test.go]
    and [README.md] the query [mn] keeps the first two, [main.go]
    ranked first. *)
Example session_scenario :
  let s := Session.type_in Demo.weights "mn"
             (Session.start Demo.weights ["main.go"; "pkg/main_test.go"; "README.md"]) in
  text <$> Session.pool s = ["main.go"; "pkg/main_test.go"]
  /\ (text ∘ candidate) <$> Session.ranked s = ["main.go"; "pkg/main_test.go"]
  /\ Session.accept s = Some {| text := "main.go"; order := 0 |}.
Proof. repeat split; reflexivity. Qed.

(** A match at the start of the name ranks above a match inside a
    word. *)
Example boundary_ordering :
  (text ∘ candidate) <$>
    Ranker.rank (Session.matches Demo.weights "main"
                   (Session.candidates ["domain.go"; "main.go"]))
  = ["main.go"; "domain.go"].
Proof. reflexivity. Qed.

(** A failed discovery starts the session with an empty pool. *)
Example load_after_failure :
  Session.pool
    (Session.load Demo.weights
       (scan Demo.os Demo.failing None true Demo.cached_world).1) = [].
Proof. reflexivity. Qed.

(** ** The module's tests *)

(** [test_fallthrough]: a scanner with neither [root_path] nor
    [detect_cmd] suits every path. *)
Example test_fallthrough :
  is_suitable Demo.os Demo.lister "/src/test" Demo.empty_world
  = (Return true, Demo.empty_world).
Proof. reflexivity. Qed.

(** [test_root_path_match], the paths that need no normalisation. *)
Example test_root_path_match :
  let s := SimpleScanner_init Demo.os "test" "echo" (PyInt 0) None
             (Some "/src/test") None in
  (is_suitable Demo.os s "/src/test" Demo.empty_world).1 = Return true
  /\ (is_suitable Demo.os s "/src/test/test/stuff" Demo.empty_world).1 = Return true
  /\ (is_suitable Demo.os s "/src" Demo.empty_world).1 = Return false.
Proof. repeat split; reflexivity. Qed.

(** [test_load], the first two sections: no [type], then [type: junk]. *)
Example test_load :
  (scanner_from_configparser Demo.os "some-rule"
     {| _defaults := ∅;
        _sections := {[ "some-rule" := {[ "__name__" := "some-rule" ]} ]} |}
     Demo.empty_world).1
  = Raise (NoTypeError "some-rule")
  /\ (scanner_from_configparser Demo.os "some-rule"
        {| _defaults := ∅;
           _sections := {[ "some-rule" :=
                            {[ "__name__" := "some-rule"; "type" := "junk" ]} ]} |}
        Demo.empty_world).1
     = Raise (UnknownTypeError "junk" "some-rule").
Proof. split; reflexivity. Qed.

(** A section whose cache file is to lie in a directory that is missing
    and may not be created: the constructor raises. *)
Example locked_cache_directory :
  scanner_from_configparser Demo.os "locked" Demo.locked_rule Demo.empty_world
  = (Raise (OSError "/ro/cache"), Demo.empty_world).
Proof. reflexivity. Qed.

(** A scanner constructed with a cache in a missing directory that may
    be created: the directory is there afterwards. *)
Example init_creates_cache_directory :
  let w' := (__init__ Demo.os "test" "ls" (PyInt 0) None None (Some "/tmp/cache")
               {| files := ∅; dirs := {[ "/" ]}; spawned := [] |}).2 in
  bool_decide ("/tmp" ∈ dirs w') = true.
Proof. reflexivity. Qed.

(** ** The order of scanners *)

Section OrderFacts.

Implicit Types (a b c : SimpleScanner) (p q r : priority).

Lemma ascii_compare_lt_trans (x y z : ascii) :
  Ascii.compare x y = Lt -> Ascii.compare y z = Lt -> Ascii.compare x z = Lt.
Proof.
  unfold Ascii.compare. rewrite !N.compare_lt_iff. apply N.lt_trans.
Qed.

Lemma string_compare_lt_trans (s t u : string) :
  String.compare s t = Lt -> String.compare t u = Lt -> String.compare s u = Lt.
Proof.
  revert t u. induction s as [|x s IH]; intros [|y t] [|z u]; simpl; try done.
  destruct (Ascii.compare x y) eqn:Hxy; try done.
  - apply Ascii.compare_eq_iff in Hxy as ->.
    destruct (Ascii.compare y z); try done. apply IH.
  - intros _. destruct (Ascii.compare y z) eqn:Hyz; try done.
    + apply Ascii.compare_eq_iff in Hyz as <-. by rewrite Hxy.
    + by rewrite (ascii_compare_lt_trans x y z).
Qed.

Lemma string_compare_refl (s : string) : String.compare s s = Eq.
Proof.
  induction s as [|x s IH]; [done|]. simpl.
  unfold Ascii.compare. by rewrite N.compare_refl.
Qed.

Lemma string_ltb_irrefl (s : string) : String.ltb s s = false.
Proof. unfold String.ltb. by rewrite string_compare_refl. Qed.

Lemma string_ltb_trans (s t u : string) :
  String.ltb s t = true -> String.ltb t u = true -> String.ltb s u = true.
Proof.
  unfold String.ltb.
  destruct (String.compare s t) eqn:Hst; try done.
  destruct (String.compare t u) eqn:Htu; try done.
  by rewrite (string_compare_lt_trans s t u).
Qed.

(** Two byte strings are equal or one is below the other. *)
Lemma string_ltb_total (s t : string) :
  s = t \/ String.ltb s t = true \/ String.ltb t s = true.
Proof.
  unfold String.ltb. rewrite (String.compare_antisym t s).
  destruct (String.compare s t) eqn:Hst; simpl; auto.
  left. by apply String.compare_eq_iff.
Qed.

Lemma priority_lt_irrefl p : priority_lt p p = false.
Proof. destruct p; simpl; [apply Z.ltb_irrefl|apply string_ltb_irrefl]. Qed.

Lemma priority_lt_trans p q r :
  priority_lt p q = true -> priority_lt q r = true -> priority_lt p r = true.
Proof.
  destruct p, q, r; simpl; try done.
  - rewrite !Z.ltb_lt. lia.
  - apply string_ltb_trans.
Qed.

Lemma priority_lt_total p q :
  p = q \/ priority_lt p q = true \/ priority_lt q p = true.
Proof.
  destruct p as [m|s], q as [n|t]; simpl; auto.
  - destruct (Z.lt_trichotomy m n) as [?|[->|?]]; auto.
    + right. left. by apply Z.ltb_lt.
    + right. right. by apply Z.ltb_lt.
  - destruct (string_ltb_total s t) as [->|[?|?]]; auto.
Qed.

(** X1: [Scanner.__lt__] is a strict order on scanners: no scanner is
    below itself, two scanners are never below each other, and below is
    transitive, also when integer and string priorities are mixed. *)
Theorem scanner_lt_strict_order :
  (forall a, __lt__ a a = false)
  /\ (forall a b, __lt__ a b = true -> __lt__ b a = false)
  /\ (forall a b c, __lt__ a b = true -> __lt__ b c = true -> __lt__ a c = true).
Proof.
  unfold __lt__. split_and!.
  - intros a. apply priority_lt_irrefl.
  - intros a b Hab. destruct (priority_lt (_priority b) (_priority a)) eqn:Hba; [|done].
    pose proof (priority_lt_trans _ _ _ Hab Hba) as Haa.
    by rewrite priority_lt_irrefl in Haa.
  - intros a b c. apply priority_lt_trans.
Qed.

(** X2: two scanners compare equal with [Scanner.__eq__] exactly when
    neither is below the other with [Scanner.__lt__] and they have the
    same name; scanners of equal priority and different names are
    neither equal nor ordered. *)
Theorem scanner_eq_iff_unordered_same_name a b :
  __eq__ a b = true
  <-> __lt__ a b = false /\ __lt__ b a = false /\ _name a = _name b.
Proof.
  unfold __eq__, __lt__. rewrite andb_true_iff, !bool_decide_eq_true. split.
  - intros [Hname Hprio]. rewrite Hprio. by rewrite priority_lt_irrefl.
  - intros (Hab & Hba & Hname). split; [done|].
    destruct (priority_lt_total (_priority a) (_priority b)) as [?|[?|?]];
      [done|congruence|congruence].
Qed.

End OrderFacts.

(** ** [is_suitable]: errors, refusals and the prefix test *)

Section SuitableFacts.

Variable os : OS.
Implicit Types (self : SimpleScanner) (path : string) (w : world).

(** [is_suitable] with the monad unfolded. *)
Lemma is_suitable_run self path w :
  is_suitable os self path w =
    let cwd := (root_path_block os self path).2 in
    if (root_path_block os self path).1 then (Return true, w)
    else
      match _detect_cmd self with
      | None => (Return (fallthrough self), w)
      | Some d =>
          let w1 := after_run w d cwd (shell os d cwd (files w)).2 in
          match (shell os d cwd (files w)).1 with
          | LaunchFailed => (Raise (SubprocessError d cwd (Some "")), w1)
          | Exited rc _ =>
              (Return (if bool_decide (rc = 0) then true else fallthrough self), w1)
          end
      end.
Proof.
  unfold is_suitable, communicate, after_run, mbind, M_bind, mret, M_ret, raise.
  destruct (root_path_block os self path) as [[|] cwd]; simpl; [done|].
  destruct (_detect_cmd self) as [d|]; [|done].
  destruct (shell os d cwd (files w)) as [[|rc out] fs]; simpl; [done|].
  by case_bool_decide.
Qed.

Lemma startswith_app (root suffix : string) :
  startswith (root +:+ suffix) root = true.
Proof.
  induction root as [|c root IH]; [by destruct suffix|].
  rewrite append_cons. simpl. by rewrite Ascii.eqb_refl.
Qed.

(** X3: [is_suitable] raises exactly when the prefix test did not
    succeed, a [detect_cmd] is set and the command cannot be started;
    the exception is the [SubprocessError] of that command with an empty
    error text.  It returns [False] exactly when the prefix test did not
    succeed and either the detect command ended with a nonzero return
    code or there is no detect command but a [root_path]. *)
Theorem is_suitable_raises_or_refuses self path w :
  let under := (root_path_block os self path).1 in
  let cwd := (root_path_block os self path).2 in
  let r := (is_suitable os self path w).1 in
  (forall e, r = Raise e <->
     under = false
     /\ exists d, _detect_cmd self = Some d
                  /\ (shell os d cwd (files w)).1 = LaunchFailed
                  /\ e = SubprocessError d cwd (Some ""))
  /\ (r = Return false <->
      under = false
      /\ ((exists d rc out, _detect_cmd self = Some d
                            /\ (shell os d cwd (files w)).1 = Exited rc out
                            /\ rc <> 0)
          \/ (_detect_cmd self = None /\ is_Some (_root_path self)))).
Proof.
  intros under cwd r. subst under cwd r. rewrite is_suitable_run.
  unfold fallthrough.
  destruct (root_path_block os self path) as [[|] cwd]; simpl.
  { split; [intros e|]; split; try done; intros [Hu _]; discriminate Hu. }
  destruct (_detect_cmd self) as [d|] eqn:Hd; simpl.
  - destruct (shell os d cwd (files w)) as [[|rc out] fs] eqn:Hrun; simpl.
    + split; [intros e|]; split; try done.
      * intros [= <-]. split; [done|]. exists d. by rewrite Hrun.
      * intros (_ & d' & [= <-] & _ & ->). done.
      * intros (_ & [(d' & rc & out & [= <-] & Hx & _)|[? _]]); [|done].
        by rewrite Hrun in Hx.
    + split; [intros e|]; split; try done.
      * intros (_ & d' & [= <-] & Hx & _). by rewrite Hrun in Hx.
      * case_bool_decide as Hrc; [done|]. intros _. split; [done|].
        left. exists d, rc, out. by rewrite Hrun.
      * intros (_ & [(d' & rc' & out' & [= <-] & Hx & Hrc)|[? _]]); [|done].
        rewrite Hrun in Hx. injection Hx as <- <-.
        rewrite bool_decide_eq_false_2 by done.
        by destruct (_root_path self).
  - split; [intros e|]; split; try done.
    + intros (_ & d & ? & _). done.
    + destruct (_root_path self) as [root|]; [|done]. intros _.
      split; [done|]. right. split; [done|]. by exists root.
    + intros (_ & [(d & rc & out & ? & _)|[_ [root Hroot]]]); [done|].
      by rewrite Hroot.
Qed.

(** X4: the [root_path] test of [is_suitable] is a test on the text of
    the canonical path: every path whose canonical form is the root
    followed by any characters at all is accepted, without a command
    being started, whether or not the characters begin a new path
    component. *)
Theorem is_suitable_textual_prefix self path w root suffix :
  _root_path self = Some root ->
  realpath os (normpath os path) = root +:+ suffix ->
  is_suitable os self path w = (Return true, w).
Proof.
  intros Hroot Hcanon. rewrite is_suitable_run. unfold root_path_block.
  rewrite Hroot. simpl. by rewrite Hcanon, startswith_app.
Qed.

End SuitableFacts.

(** In [/nowhere] the detect command cannot be started. *)
Lemma is_suitable_raises_or_refuses_witness :
  (is_suitable Demo.os
     (SimpleScanner_init Demo.os "test" "ls" (PyInt 0) (Some "true") None None)
     "/nowhere" Demo.empty_world).1
  = Raise (SubprocessError "true" "/nowhere" (Some "")).
Proof.
  apply (is_suitable_raises_or_refuses Demo.os).
  split; [reflexivity|]. exists "true". repeat split; reflexivity.
Defined.

(** The sibling directory [/src/testing] of the root [/src/test]. *)
Lemma is_suitable_textual_prefix_witness :
  is_suitable Demo.os
    (SimpleScanner_init Demo.os "test" "echo" (PyInt 0) None (Some "/src/test") None)
    "/src/testing" Demo.empty_world
  = (Return true, Demo.empty_world).
Proof.
  apply (is_suitable_textual_prefix Demo.os _ "/src/testing" Demo.empty_world
           "/src/test" "ing"); reflexivity.
Defined.

(** ** What a scanned list holds *)

Section TokenFacts.

Implicit Types (s t ws rest : string) (ts : list string).

Lemma squeeze_app s t : squeeze (s +:+ t) = squeeze s +:+ squeeze t.
Proof.
  induction s as [|c s IH]; [done|]. rewrite append_cons. simpl.
  destruct (isspace c); [done|]. by rewrite append_cons, IH.
Qed.

Lemma squeeze_allspace ws : allspace ws = true -> squeeze ws = "".
Proof.
  induction ws as [|c ws IH]; [done|]. unfold allspace. simpl.
  intros [-> Hws]%andb_true_iff. by apply IH.
Qed.

Lemma squeeze_nospace t : nospace t = true -> squeeze t = t.
Proof.
  induction t as [|c t IH]; [done|]. unfold nospace. simpl.
  intros [Hc Ht]%andb_true_iff. apply negb_true_iff in Hc. rewrite Hc.
  by rewrite IH.
Qed.

(** The tokens of a text, put together again, are the text without its
    whitespace. *)
Lemma Tokens_glue s ts : Tokens s ts -> glue ts = squeeze s.
Proof.
  induction 1 as [ws Hws|ws t rest ts Hws Ht _ _ IH]; simpl.
  - by rewrite squeeze_allspace.
  - rewrite !squeeze_app, squeeze_allspace by done.
    rewrite squeeze_nospace by by apply word_nospace. by rewrite IH.
Qed.

Lemma allspace_app ws t : allspace (ws +:+ t) = allspace ws && allspace t.
Proof.
  induction ws as [|c ws IH]; [done|]. rewrite append_cons. unfold allspace in *.
  simpl. by rewrite IH, andb_assoc.
Qed.

Lemma word_not_allspace t : word t = true -> allspace t = false.
Proof.
  destruct t as [|c t]; [done|]. unfold word, nospace, allspace. simpl.
  intros [Hc _]%andb_true_iff. apply negb_true_iff in Hc. by rewrite Hc.
Qed.

(** A text has no token exactly when it is all whitespace. *)
Lemma Tokens_none s ts : Tokens s ts -> (ts = [] <-> allspace s = true).
Proof.
  intros [ws Hws|ws t rest ts' Hws Ht _ _]; [done|].
  split; [done|]. rewrite !allspace_app, (word_not_allspace t Ht).
  by rewrite andb_false_r.
Qed.

End TokenFacts.

Section ScanExtras.

Variable os : OS.
Implicit Types (self : SimpleScanner) (path : option string) (w : world).

(** Whatever [scan] returns is the split of the text it read. *)
Lemma scan_returns_split self path rescan w l w' :
  scan os self path rescan w = (Return l, w') ->
  exists source,
    scanned_text os self path rescan w = Some source /\ l = split source.
Proof.
  unfold scanned_text. destruct (served_from_cache self rescan w) eqn:Hs.
  - intros (c & data & Hc & Hd & _ & -> & _)%scan_cached_return; [|done].
    exists data. by rewrite Hc.
  - destruct (scan_fresh_cases os self path rescan w Hs)
      as [[_ [err ->]]|[(out & c & _ & _ & _ & ->)|(out & Hd & _ & ->)]];
      [done|done|].
    intros [= <- _]. exists out. by rewrite Hd.
Qed.

(** X5: no entry of a list that [scan] returns is empty, and none
    contains a whitespace byte anywhere, not only at its ends. *)
Theorem scan_results_are_words self path rescan w l w' :
  scan os self path rescan w = (Return l, w') ->
  Forall (fun s => word s = true) l.
Proof.
  intros (source & _ & ->)%scan_returns_split.
  apply (Tokens_words source), split_Tokens.
Qed.

(** X6: [scan] loses and invents no byte: the entries of the returned
    list, one after the other, are the text it read (command output or
    cache file) with the whitespace bytes removed. *)
Theorem scan_keeps_every_byte self path rescan w l w' :
  scan os self path rescan w = (Return l, w') ->
  exists source,
    scanned_text os self path rescan w = Some source
    /\ glue l = squeeze source.
Proof.
  intros (source & Hsrc & ->)%scan_returns_split.
  exists source. split; [done|]. apply Tokens_glue, split_Tokens.
Qed.

(** X7: a list that [scan] returns is empty exactly when the text it
    read is empty or all whitespace; a command that prints nothing and
    ends with code 0, or an empty cache file, gives the empty list and
    no error. *)
Theorem scan_empty_iff_blank self path rescan w l w' :
  scan os self path rescan w = (Return l, w') ->
  exists source,
    scanned_text os self path rescan w = Some source
    /\ (l = [] <-> allspace source = true).
Proof.
  intros (source & Hsrc & ->)%scan_returns_split.
  exists source. split; [done|]. apply (Tokens_none source), split_Tokens.
Qed.

(** X8: apart from what the discovery command itself does to the file
    store, [scan] changes no file other than its cache file; without a
    cache path it changes none. *)
Theorem scan_touches_only_cache self path rescan w p :
  _cache self <> Some p ->
  files (scan os self path rescan w).2 !! p
  = (if served_from_cache self rescan w then files w
     else (discovery os self path w).2) !! p.
Proof.
  intros Hp. destruct (served_from_cache self rescan w) eqn:Hs.
  - by destruct (scan_cached os self path rescan w Hs) as (c & _ & _ & ->).
  - destruct (scan_fresh_cases os self path rescan w Hs)
      as [[_ [err ->]]|[(out & c & _ & _ & _ & ->)|(out & _ & _ & ->)]];
      [done|done|].
    unfold with_cache. simpl. destruct (_cache self) as [c|]; [|done].
    simpl. apply lookup_insert_ne. congruence.
Qed.

(** X9: a scanner constructed with a [root_path] starts its discovery
    command in the canonical form of that path whatever [path] is
    passed to [scan], so the result and the world after it do not
    depend on the argument; for a scanner constructed without, no
    argument means the current directory. *)
Theorem scan_root_path_fixes_cwd name cmd prio detect cache rescan w :
  (forall root path path',
     let self := SimpleScanner_init os name cmd prio detect (Some root) cache in
     scan os self path rescan w = scan os self path' rescan w
     /\ (served_from_cache self rescan w = false ->
         spawned (scan os self path rescan w).2
         = spawned w ++ [(cmd, canonical os root)]))
  /\ (let self := SimpleScanner_init os name cmd prio detect None cache in
      scan os self None rescan w = scan os self (Some (getcwd os)) rescan w).
Proof.
  split; [|done]. intros root path path' self. split; [done|]. intros Hs.
  destruct (scan_fresh_cases os self path rescan w Hs)
    as [[_ [err ->]]|[(out & c & _ & _ & _ & ->)|(out & _ & _ & ->)]];
    [done|done|].
  unfold with_cache. by destruct (_cache self).
Qed.

(** X10: a scanner constructed with a cache path reads and writes its
    cache at the canonical form of that path: a scan that ran the
    command and returned a list leaves the list there, and a later scan
    without [rescan] in that world is served from it. *)
Theorem scan_caches_at_canonical_path name cmd prio detect root c path rescan w l w' :
  let self := SimpleScanner_init os name cmd prio detect root (Some c) in
  served_from_cache self rescan w = false ->
  scan os self path rescan w = (Return l, w') ->
  files w' !! canonical os c = Some (cache_text l)
  /\ served_from_cache self false w' = true.
Proof.
  intros self Hs Hscan.
  destruct (scan_fresh_cases os self path rescan w Hs)
    as [[_ [err Hr]]|[(out & c' & _ & _ & _ & Hr)|(out & _ & _ & Hr)]];
    rewrite Hr in Hscan; [done|done|].
  injection Hscan as Hl Hw.
  assert (files w' !! canonical os c = Some (cache_text l)) as Hfile.
  { rewrite <- Hw, <- Hl. unfold with_cache. simpl. apply lookup_insert_eq. }
  split; [done|]. unfold served_from_cache, exists_at. simpl. by rewrite Hfile.
Qed.

End ScanExtras.

(** ** Scanners read from a configuration section *)

Section ConfigExtras.

Context {P : Type} `{ConfigParser P}.
Variable os : OS.
Implicit Types (section : string) (parser : P).

Lemma keyword_cases parser section name o :
  keyword parser section name = Return o ->
  (has_option parser section name = false /\ o = None)
  \/ (has_option parser section name = true
      /\ exists v, get parser section name = Return v /\ o = Some v).
Proof.
  unfold keyword. destruct (has_option parser section name).
  - destruct (get parser section name) as [v|e]; [|done].
    intros [= <-]. right. split; [done|]. by exists v.
  - intros [= <-]. by left.
Qed.

(** A scanner that [from_configparser] returns is the one [__init__]
    builds from the options it read. *)
Lemma from_configparser_fields section parser w sc w' :
  from_configparser os section parser w = (Return sc, w') ->
  exists detect root prio cache cmd,
    keyword parser section "detect_cmd" = Return detect
    /\ keyword parser section "root_path" = Return root
    /\ keyword parser section "priority" = Return prio
    /\ keyword parser section "cache" = Return cache
    /\ get parser section "cmd" = Return cmd
    /\ sc = SimpleScanner_init os section (one_line cmd)
              (from_option PyString (PyInt 0) prio)
              (one_line <$> detect) root cache.
Proof.
  rewrite from_configparser_run.
  pose proof (options_outcome parser section) as Hopt.
  destruct (options parser section) as [[[[[detect root] prio] cache] cmd]|e];
    [|done].
  destruct Hopt as (Hd & Hr & Hp & Hc & Hcmd).
  pose proof (init_outcome os section (one_line cmd)
                (from_option PyString (PyInt 0) prio) (one_line <$> detect)
                root cache w) as Hinit.
  simpl in Hinit. destruct (cachedir_refused os cache w).
  - destruct Hinit as (c & _ & ->). done.
  - destruct Hinit as (w1 & -> & _). intros [= <- _].
    by exists detect, root, prio, cache, cmd.
Qed.

Lemma one_line_one_liner (s : string) : one_liner (one_line s) = true.
Proof.
  unfold one_liner, one_line. induction s as [|c s IH]; [done|]. simpl.
  rewrite IH, andb_true_r. by destruct (Ascii.eqb c LF) eqn:Hc; [|rewrite Hc].
Qed.

Lemma one_line_length (s : string) :
  String.length (one_line s) = String.length s.
Proof. unfold one_line. induction s as [|c s IH]; simpl; by f_equal. Qed.

Lemma one_line_id (s : string) : one_liner s = true -> one_line s = s.
Proof.
  unfold one_liner, one_line. induction s as [|c s IH]; [done|]. simpl.
  intros [Hc Hs]%andb_true_iff. apply negb_true_iff in Hc. rewrite Hc.
  by rewrite IH.
Qed.

(** X11: the command of a scanner read from a configuration section
    never contains a line feed: it has the length of the [cmd] option,
    and equals it when the option is written on one line.  The same
    holds for its detect command. *)
Theorem from_configparser_commands_one_line section parser w sc w' :
  from_configparser os section parser w = (Return sc, w') ->
  (exists cmd, get parser section "cmd" = Return cmd
               /\ one_liner (_cmd sc) = true
               /\ String.length (_cmd sc) = String.length cmd
               /\ (one_liner cmd = true -> _cmd sc = cmd))
  /\ (forall d, _detect_cmd sc = Some d ->
        exists detect, get parser section "detect_cmd" = Return detect
                       /\ one_liner d = true
                       /\ String.length d = String.length detect
                       /\ (one_liner detect = true -> d = detect)).
Proof.
  intros (detect & root & prio & cache & cmd & Hd & _ & _ & _ & Hcmd & ->)
    %from_configparser_fields.
  simpl. split.
  - exists cmd. split; [done|].
    split; [apply one_line_one_liner|]. split; [apply one_line_length|].
    apply one_line_id.
  - intros d Hsome. destruct detect as [detect|]; [|done].
    injection Hsome as <-.
    apply keyword_cases in Hd as [[_ [=]]|(_ & v & Hget & [= <-])].
    exists detect. split; [done|].
    split; [apply one_line_one_liner|]. split; [apply one_line_length|].
    apply one_line_id.
Qed.

(** X12: a scanner read from a section that has neither a [detect_cmd]
    nor a [root_path] option suits every path, and asking it starts no
    command and changes nothing. *)
Theorem from_configparser_bare_suits_all section parser w sc w' :
  from_configparser os section parser w = (Return sc, w') ->
  has_option parser section "detect_cmd" = false ->
  has_option parser section "root_path" = false ->
  forall path w0, is_suitable os sc path w0 = (Return true, w0).
Proof.
  intros (detect & root & prio & cache & cmd & Hd & Hr & _ & _ & _ & ->)
    %from_configparser_fields Hnd Hnr path w0.
  apply keyword_cases in Hd as [[_ ->]|[Hyes _]]; [|congruence].
  apply keyword_cases in Hr as [[_ ->]|[Hyes _]]; [|congruence].
  done.
Qed.

(** X13: the priority of a scanner read from a section is the text of
    its [priority] option, compared as a byte string, and the integer 0
    when the section has none; so with [Scanner.__lt__] every scanner
    read from a section without the option is below every scanner read
    from a section with it, whatever the option says. *)
Theorem from_configparser_priority_order
    section parser w sc w1 section' parser' w' sc' w1' :
  from_configparser os section parser w = (Return sc, w1) ->
  from_configparser os section' parser' w' = (Return sc', w1') ->
  has_option parser section "priority" = false ->
  has_option parser' section' "priority" = true ->
  _priority sc = PyInt 0
  /\ (exists v, get parser' section' "priority" = Return v
                /\ _priority sc' = PyString v)
  /\ __lt__ sc sc' = true
  /\ __lt__ sc' sc = false.
Proof.
  intros (? & ? & prio & ? & ? & _ & _ & Hp & _ & _ & ->)%from_configparser_fields.
  intros (? & ? & prio' & ? & ? & _ & _ & Hp' & _ & _ & ->)%from_configparser_fields.
  intros Hno Hyes.
  apply keyword_cases in Hp as [[_ ->]|[? _]]; [|congruence].
  apply keyword_cases in Hp' as [[? _]|(_ & v & Hget & ->)]; [congruence|].
  split; [done|]. split; [by exists v|]. done.
Qed.


End ConfigExtras.


(** ** The further statements on concrete inputs *)

(** Priorities 1, 2 and the text [x]: the first scanner is below the
    third. *)
Lemma scanner_lt_strict_order_witness :
  __lt__ (SimpleScanner_init Demo.os "a" "echo" (PyInt 1) None None None)
         (SimpleScanner_init Demo.os "c" "echo" (PyString "x") None None None)
  = true.
Proof.
  destruct scanner_lt_strict_order as (_ & _ & Htrans).
  apply (Htrans _ (SimpleScanner_init Demo.os "b" "echo" (PyInt 2) None None None));
    reflexivity.
Defined.

(** The listing of [Demo.lister]: three words. *)
Lemma scan_results_are_words_witness :
  Forall (fun s => word s = true) ["b.c"; "a.c"; "b.c"].
Proof.
  apply (scan_results_are_words Demo.os Demo.lister None false Demo.empty_world
           ["b.c"; "a.c"; "b.c"] (after_run Demo.empty_world "ls" "/home/user" ∅)).
  reflexivity.
Defined.

(** The listing of [Demo.lister] without its line feeds. *)
Lemma scan_keeps_every_byte_witness :
  exists source,
    scanned_text Demo.os Demo.lister None false Demo.empty_world = Some source
    /\ glue ["b.c"; "a.c"; "b.c"] = squeeze source.
Proof.
  apply (scan_keeps_every_byte Demo.os Demo.lister None false Demo.empty_world
           ["b.c"; "a.c"; "b.c"] (after_run Demo.empty_world "ls" "/home/user" ∅)).
  reflexivity.
Defined.

(** An empty cache file is a cache all the same: the list is empty. *)
Lemma scan_empty_iff_blank_witness :
  let w := {| files := {[ "/tmp/cache" := "" ]};
              dirs := {[ "/"; "/tmp" ]};
              spawned := [] |} in
  exists source,
    scanned_text Demo.os Demo.hi None false w = Some source
    /\ (@nil string = [] <-> allspace source = true).
Proof.
  intros w.
  apply (scan_empty_iff_blank Demo.os Demo.hi None false w [] w).
  reflexivity.
Defined.

(** A rescan of [Demo.hi] leaves a file beside the cache as it was. *)
Lemma scan_touches_only_cache_witness :
  let w := {| files := {[ "/tmp/cache" := "old.c"; "/tmp/notes" := "keep" ]};
              dirs := {[ "/"; "/tmp" ]};
              spawned := [] |} in
  files (scan Demo.os Demo.hi None true w).2 !! "/tmp/notes" = Some "keep".
Proof.
  intros w.
  rewrite (scan_touches_only_cache Demo.os Demo.hi None true w "/tmp/notes");
    [reflexivity|discriminate].
Defined.

(** With the root [/srv/data] the command is started there. *)
Lemma scan_root_path_fixes_cwd_witness :
  spawned
    (scan Demo.os
       (SimpleScanner_init Demo.os "test" "ls" (PyInt 0) None (Some "/srv/data") None)
       (Some "/elsewhere") false Demo.empty_world).2
  = [("ls", "/srv/data")].
Proof.
  destruct (scan_root_path_fixes_cwd Demo.os "test" "ls" (PyInt 0) None None
              false Demo.empty_world) as [Hroot _].
  destruct (Hroot "/srv/data" (Some "/elsewhere") None) as [_ Hspawn].
  apply Hspawn. reflexivity.
Defined.

(** [Demo.hi] stores [hi] under [/tmp/cache]. *)
Lemma scan_caches_at_canonical_path_witness :
  files (scan Demo.os Demo.hi None true Demo.cached_world).2 !! "/tmp/cache"
  = Some "hi".
Proof.
  apply (scan_caches_at_canonical_path Demo.os "test" "echo hi" (PyInt 0) None None
           "/tmp/cache" None true Demo.cached_world ["hi"]
           (scan Demo.os Demo.hi None true Demo.cached_world).2);
    reflexivity.
Defined.

(** A section whose [cmd] runs over two lines. *)
Lemma from_configparser_commands_one_line_witness :
  let parser :=
    {| _defaults := ∅;
       _sections := {[ "git" := {[ "cmd" := "git" +:+ String LF "ls-files" ]} ]} |} in
  exists cmd, get parser "git" "cmd" = Return cmd
              /\ one_liner "git ls-files" = true
              /\ String.length "git ls-files" = String.length cmd
              /\ (one_liner cmd = true -> "git ls-files" = cmd).
Proof.
  intros parser.
  apply (from_configparser_commands_one_line Demo.os "git" parser Demo.empty_world
           (SimpleScanner_init Demo.os "git" "git ls-files" (PyInt 0) None None None)
           Demo.empty_world).
  reflexivity.
Defined.

(** The section of the module's test with [type] and [cmd] only. *)
Lemma from_configparser_bare_suits_all_witness :
  is_suitable Demo.os
    (SimpleScanner_init Demo.os "some-rule" "echo" (PyInt 0) None None None)
    "/anywhere" Demo.empty_world
  = (Return true, Demo.empty_world).
Proof.
  apply (from_configparser_bare_suits_all Demo.os "some-rule" Demo.some_rule_cmd
           Demo.empty_world _ Demo.empty_world);
    reflexivity.
Defined.

(** A section with [priority = -5] still outranks one without the
    option. *)
Lemma from_configparser_priority_order_witness :
  __lt__ (SimpleScanner_init Demo.os "some-rule" "echo" (PyInt 0) None None None)
         (SimpleScanner_init Demo.os "low" "ls" (PyString "-5") None None None)
  = true.
Proof.
  apply (from_configparser_priority_order Demo.os
           "some-rule" Demo.some_rule_cmd Demo.empty_world _ Demo.empty_world
           "low" {| _defaults := ∅;
                    _sections := {[ "low" := {[ "cmd" := "ls"; "priority" := "-5" ]} ]} |}
           Demo.empty_world _ Demo.empty_world);
    reflexivity.
Defined.

